(** * zhuguang-edge: the encrypted local prompt store

    A shallow embedding of the prompt encryption layer of the application
    (lib/utils/encryption, lib/promptEncryptionManager, the prompt repository
    and the user prompt selection repository) together with the properties
    its specification states about it.

    JavaScript values are modelled as follows.
    - strings are [string]; [!s] on a string is [falsy s], true exactly on
      the empty string;
    - an optional property is an [option]; [None] is an absent property;
    - a function that may throw returns a [result]; a function that reads or
      writes the browser (localStorage, the random source, the clock, the
      local database) is a computation [M A] over the [World];
    - [console.error] and [console.warn] only write to the developer console
      and are left out: they change nothing a program can read back. *)

From Stdlib Require Import Strings.String Strings.Ascii Strings.Byte List ZArith NArith Lia Bool.
From stdpp Require Import gmap strings list fin_maps infinite sorting.

Local Open Scope string_scope.
Local Open Scope list_scope.

(** ** Exceptions and results *)

(** A thrown JavaScript [Error] with its message. *)
Inductive exn : Type :=
  | Error (message : string).

Inductive result (A : Type) : Type :=
  | Ok (value : A)
  | Throw (error : exn).

Arguments Ok {A} value.
Arguments Throw {A} error.

Definition is_Ok {A} (r : result A) : bool :=
  match r with Ok _ => true | Throw _ => false end.

(** [!s] for a string [s]. *)
Definition falsy (s : string) : bool :=
  match s with EmptyString => true | String _ _ => false end.

(** [!v] for an optional string ([undefined], [null] and [""] are falsy). *)
Definition falsy_opt (v : option string) : bool :=
  match v with None => true | Some s => falsy s end.

(** [text.startsWith(marker)]. *)
Definition startsWith (text marker : string) : bool := String.prefix marker text.

(** ** The CryptoJS library

    crypto-js is a dependency of the application, not part of it.  The
    embedding takes the entry points the code calls as an interface.
    A WordArray is a list of bytes.

    With a passphrase, [AES.encrypt] draws an eight byte salt from the
    random source and writes it into the envelope.  [AES.decrypt] reads the
    salt from the envelope; for a text that carries none (the parser finds
    no [Salted__] header) its key derivation draws eight bytes from the
    random source instead.  The bytes drawn are explicit arguments here
    and the caller draws them, so that what a call returns depends on the
    random source exactly where it does in the library. *)
Class CryptoJS : Type := {
  (** [CryptoJS.AES.encrypt(text, key).toString()] with the given salt. *)
  AES_encrypt : string -> string -> list byte -> result string;
  (** Whether the parser of [AES.decrypt] finds the [Salted__] header, and
      with it the salt, in the text. *)
  OpenSSL_salted : string -> bool;
  (** [CryptoJS.AES.decrypt(ciphertext, key)]; the last argument is the
      salt drawn for a text that carries none, and [None] for a text that
      carries its salt. *)
  AES_decrypt : string -> string -> option (list byte) -> result (list byte);
  (** [bytes.toString(CryptoJS.enc.Utf8)]. *)
  enc_Utf8 : list byte -> result string;
  (** The strings [CryptoJS.enc.Utf8.parse] accepts. *)
  Utf8_ok : string -> bool
}.

(** What the code relies on from crypto-js. *)
Class CryptoJS_laws (C : CryptoJS) : Prop := {
  (** Encryption throws only when the text or the passphrase cannot be
      encoded; the salt plays no part in it. *)
  AES_encrypt_defined : forall text key salt,
    is_Ok (AES_encrypt text key salt) = Utf8_ok text && Utf8_ok key;
  (** Decrypting a ciphertext with the passphrase it was made with gives
      the bytes of the text back. *)
  AES_decrypt_encrypt : forall text key salt c,
    AES_encrypt text key salt = Ok c ->
    exists bytes, AES_decrypt c key None = Ok bytes /\ enc_Utf8 bytes = Ok text;
  (** The OpenSSL envelope: base64 of [Salted__], the salt and the blocks. *)
  AES_encrypt_salted : forall text key salt c,
    AES_encrypt text key salt = Ok c -> startsWith c "U2FsdGVkX1" = true;
  (** The parser finds the salt of an envelope [AES.encrypt] made. *)
  AES_encrypt_enveloped : forall text key salt c,
    AES_encrypt text key salt = Ok c -> OpenSSL_salted c = true;
  (** The envelope is longer than the text it holds. *)
  AES_encrypt_longer : forall text key salt c,
    AES_encrypt text key salt = Ok c -> String.length text < String.length c;
  (** The envelope is base64 text, which can be encoded in turn. *)
  AES_encrypt_encodable : forall text key salt c,
    AES_encrypt text key salt = Ok c -> Utf8_ok c = true
}.

(** [CryptoJS.enc.Hex]: two lower case digits per byte. *)
Definition hex_digit (n : N) : ascii :=
  match n with
  | 0 => "0" | 1 => "1" | 2 => "2" | 3 => "3" | 4 => "4" | 5 => "5"
  | 6 => "6" | 7 => "7" | 8 => "8" | 9 => "9" | 10 => "a" | 11 => "b"
  | 12 => "c" | 13 => "d" | 14 => "e" | _ => "f"
  end%N%char.

Fixpoint enc_Hex (bytes : list byte) : string :=
  match bytes with
  | [] => ""
  | b :: rest =>
      String (hex_digit (Byte.to_N b / 16))
        (String (hex_digit (Byte.to_N b mod 16)) (enc_Hex rest))
  end.

(** ** The data model *)

(** A [Date] value: a time in milliseconds since the epoch, or an invalid
    date. *)
Inductive Date : Type :=
  | time (ms : Z)
  | Invalid_Date.

Arguments time ms%_Z.

(** [new Date(d).getTime()]; [None] is [NaN], the time of an invalid date
    and of a time outside the range of [Date], 8.64e15 milliseconds to
    either side of the epoch. *)
Definition Date_getTime (d : Date) : option Z :=
  match d with
  | time ms => if (Z.abs ms <=? 8640000000000000)%Z then Some ms else None
  | Invalid_Date => None
  end.

(** Modelled from the spec: the [Prompt] record type (types/prompt is not
    among the sources).  The fields are those of the data model of the
    specification and of the object literal in [copyPrompt]; [type] is one
    of a fixed list of category names and is kept as its name.  A value of
    type [Omit<Prompt, 'id'>] is a record whose [id] is absent. *)
Record Prompt : Type := mkPrompt {
  id : option string;
  title : string;
  type : string;
  content : string;
  description : option string;
  examples : list string;
  createdAt : Date;
  updatedAt : Date;
  userId : option string;
  isPublic : option bool;
  publicChangedAt : option Date
}.

(** [{ ...prompt, content: c }]. *)
Definition with_content (prompt : Prompt) (c : string) : Prompt :=
  mkPrompt (id prompt) (title prompt) (type prompt) c (description prompt)
    (examples prompt) (createdAt prompt) (updatedAt prompt) (userId prompt)
    (isPublic prompt) (publicChangedAt prompt).

(** [{ ...prompt, id: i }]. *)
Definition with_id (prompt : Prompt) (i : string) : Prompt :=
  mkPrompt (Some i) (title prompt) (type prompt) (content prompt)
    (description prompt) (examples prompt) (createdAt prompt)
    (updatedAt prompt) (userId prompt) (isPublic prompt)
    (publicChangedAt prompt).

(** Modelled from the spec: the [UserPromptSelection] record type
    (types/userPromptSelection is not among the sources), with the fields
    the repository reads and writes. *)
Record UserPromptSelection : Type := mkSelection {
  sel_id : option string;
  sel_userId : string;
  sel_promptId : string;
  sel_createdAt : Date
}.

Definition sel_with_id (s : UserPromptSelection) (i : string) : UserPromptSelection :=
  mkSelection (Some i) (sel_userId s) (sel_promptId s) (sel_createdAt s).

(** ** The browser

    [localStorage] is a map from slot names to strings.  The random source
    and the clock are oracles: [entropy] lists the bytes the random source
    will deliver and [drawn] counts those already taken; [wallclock] lists
    the times the clock will show and [clock_reads] counts the readings.
    The two object stores of the local database are maps from identifiers
    to records. *)
Record World : Type := mkWorld {
  localStorage : gmap string string;
  entropy : nat -> byte;
  drawn : nat;
  wallclock : nat -> Date;
  clock_reads : nat;
  db_prompts : gmap string Prompt;
  db_selections : gmap string UserPromptSelection
}.

Definition set_localStorage (f : gmap string string -> gmap string string) (w : World) : World :=
  mkWorld (f (localStorage w)) (entropy w) (drawn w) (wallclock w)
    (clock_reads w) (db_prompts w) (db_selections w).

Definition set_drawn (n : nat) (w : World) : World :=
  mkWorld (localStorage w) (entropy w) n (wallclock w) (clock_reads w)
    (db_prompts w) (db_selections w).

Definition set_clock_reads (n : nat) (w : World) : World :=
  mkWorld (localStorage w) (entropy w) (drawn w) (wallclock w) n
    (db_prompts w) (db_selections w).

Definition set_db_prompts (f : gmap string Prompt -> gmap string Prompt) (w : World) : World :=
  mkWorld (localStorage w) (entropy w) (drawn w) (wallclock w)
    (clock_reads w) (f (db_prompts w)) (db_selections w).

Definition set_db_selections
    (f : gmap string UserPromptSelection -> gmap string UserPromptSelection)
    (w : World) : World :=
  mkWorld (localStorage w) (entropy w) (drawn w) (wallclock w)
    (clock_reads w) (db_prompts w) (f (db_selections w)).

(** ** Computations over the world

    A computation returns a value or throws, and leaves a world behind in
    both cases: what was written before a throw stays written. *)
Definition M (A : Type) : Type := World -> result A * World.

Definition ret {A} (a : A) : M A := fun w => (Ok a, w).

Definition throw {A} (e : exn) : M A := fun w => (Throw e, w).

Definition bind {A B} (m : M A) (k : A -> M B) : M B :=
  fun w =>
    match m w with
    | (Ok a, w') => k a w'
    | (Throw e, w') => (Throw e, w')
    end.

(** [try { body } catch (error) { handler }]. *)
Definition try_catch {A} (body : M A) (handler : exn -> M A) : M A :=
  fun w =>
    match body w with
    | (Ok a, w') => (Ok a, w')
    | (Throw e, w') => handler e w'
    end.

(** A call of a function that does not touch the world. *)
Definition lift {A} (r : result A) : M A := fun w => (r, w).

Declare Scope js_scope.
Delimit Scope js_scope with js.
Notation "x <- m ;; k" := (bind m (fun x => k))
  (at level 20, m at level 99, k at level 200, only parsing) : js_scope.
Notation "m ;; k" := (bind m (fun _ => k))
  (at level 100, k at level 200, only parsing, right associativity) : js_scope.
Local Open Scope js_scope.

(** [localStorage.getItem(slot)]; [None] is [null]. *)
Definition localStorage_getItem (slot : string) : M (option string) :=
  fun w => (Ok (localStorage w !! slot), w).

(** [localStorage.setItem(slot, value)]. *)
Definition localStorage_setItem (slot value : string) : M unit :=
  fun w => (Ok tt, set_localStorage (insert slot value) w).

(** [CryptoJS.lib.WordArray.random(n)]: the next [n] bytes of the source. *)
Definition WordArray_random (n : nat) : M (list byte) :=
  fun w => (Ok (map (entropy w) (seq (drawn w) n)), set_drawn (drawn w + n) w).

(** [new Date()]. *)
Definition new_Date : M Date :=
  fun w => (Ok (wallclock w (clock_reads w)), set_clock_reads (S (clock_reads w)) w).

(** ** The local database

    Modelled from the spec: [dbOperations] (core/operations is not among the
    sources).  The specification only says that it is a generic
    get/add/update/remove over a key-value store whose identifiers are
    assigned by the store on create and are unique.  A store is a map from
    identifiers to records: [add] files the record under an identifier the
    store does not hold yet and returns it with that identifier, [update]
    replaces what is filed under the record's identifier and fails on a
    record without one, [remove] deletes, [getById] looks up ([None] when
    nothing is filed), [getAll] lists every record. *)
Record Store (A : Type) : Type := mkStore {
  rows : World -> gmap string A;
  set_rows : (gmap string A -> gmap string A) -> World -> World;
  key_of : A -> option string;
  with_key : A -> string -> A
}.

Arguments rows {A}.
Arguments set_rows {A}.
Arguments key_of {A}.
Arguments with_key {A}.

(** The name of the one database of the application. *)
Inductive DbName : Type := MAIN.

Module dbOperations.

Definition getAll {A} (db : DbName) (store : Store A) : M (list A) :=
  fun w => (Ok (map snd (map_to_list (rows store w))), w).

Definition getById {A} (db : DbName) (store : Store A) (i : string) : M (option A) :=
  fun w => (Ok (rows store w !! i), w).

Definition add {A} (db : DbName) (store : Store A) (item : A) : M A :=
  fun w =>
    let i := fresh (dom (rows store w)) in
    let added := with_key store item i in
    (Ok added, set_rows store (insert i added) w).

Definition update {A} (db : DbName) (store : Store A) (item : A) : M A :=
  fun w =>
    match key_of store item with
    | Some i => (Ok item, set_rows store (insert i item) w)
    | None => (Throw (Error "update needs an identifier"), w)
    end.

Definition remove {A} (db : DbName) (store : Store A) (i : string) : M unit :=
  fun w => (Ok tt, set_rows store (delete i) w).

End dbOperations.

(** The two object stores, [DB_CONFIG.STORES.MAIN.PROMPTS] and
    [DB_CONFIG.STORES.MAIN.USER_PROMPT_SELECTIONS]. *)
Definition PROMPTS : Store Prompt :=
  mkStore Prompt db_prompts set_db_prompts id with_id.

Definition USER_PROMPT_SELECTIONS : Store UserPromptSelection :=
  mkStore UserPromptSelection db_selections
    set_db_selections sel_id sel_with_id.

(** ** lib/utils/encryption *)

(** The truthy string behind an optional one, if any: what [if (v)] lets
    through. *)
Definition truthy (v : option string) : option string :=
  match v with
  | Some s => if falsy s then None else Some s
  | None => None
  end.

(** [generateLocalEncryptionKey()]. *)
Definition generateLocalEncryptionKey : M string :=
  storedKey <- localStorage_getItem "zhuguang_local_encryption_key" ;;
  match truthy storedKey with
  | Some storedKey => ret storedKey
  | None =>
      random <- WordArray_random (256 / 8) ;;
      let newKey := enc_Hex random in
      localStorage_setItem "zhuguang_local_encryption_key" newKey ;;
      ret newKey
  end.

Definition result_bind {A B} (r : result A) (k : A -> result B) : result B :=
  match r with
  | Ok a => k a
  | Throw e => Throw e
  end.

Section Encryption.
Context {C : CryptoJS}.

(** [encryptText(text, key)].  The eight bytes are the salt
    [CryptoJS.AES.encrypt] draws for a passphrase. *)
Definition encryptText (text key : string) : M string :=
  try_catch
    (salt <- WordArray_random (64 / 8) ;;
     lift (AES_encrypt text key salt))
    (fun error => throw (Error "加密失败")).

(** The call [CryptoJS.AES.decrypt(ciphertext, key)]: eight bytes are
    drawn when the text carries no salt. *)
Definition CryptoJS_AES_decrypt (ciphertext key : string) : M (list byte) :=
  if OpenSSL_salted ciphertext then lift (AES_decrypt ciphertext key None)
  else
    salt <- WordArray_random (64 / 8) ;;
    lift (AES_decrypt ciphertext key (Some salt)).

(** [decryptText(encryptedText, key)]. *)
Definition decryptText (encryptedText key : string) : M string :=
  try_catch
    (bytes <- CryptoJS_AES_decrypt encryptedText key ;;
     decrypted <- lift (enc_Utf8 bytes) ;;
     if falsy decrypted
     then throw (Error "Decryption failed or resulted in empty string")
     else ret decrypted)
    (fun error => throw error).

(** [isEncrypted(text, key)]. *)
Definition isEncrypted (text key : string) : M bool :=
  if falsy text || negb (startsWith text "U2F") then ret false
  else
    try_catch
      (decrypted <- decryptText text key ;;
       ret (negb (String.eqb decrypted text)))
      (fun error => ret false).

(** ** lib/promptEncryptionManager *)

(** The body of the [try] block of [encryptPrompt]. *)
Definition encryptPrompt_try (prompt : Prompt) : M Prompt :=
  key <- generateLocalEncryptionKey ;;
  encrypted <- isEncrypted (content prompt) key ;;
  if encrypted then ret prompt
  else
    encryptedContent <- encryptText (content prompt) key ;;
    ret (with_content prompt encryptedContent).

(** [encryptPrompt(prompt)]. *)
Definition encryptPrompt (prompt : Prompt) : M Prompt :=
  try_catch (encryptPrompt_try prompt) (fun error => ret prompt).

(** The body of the [try] block of [decryptPrompt]. *)
Definition decryptPrompt_try (prompt : Prompt) : M Prompt :=
  key <- generateLocalEncryptionKey ;;
  encrypted <- isEncrypted (content prompt) key ;;
  if negb encrypted then ret prompt
  else
    decryptedContent <- decryptText (content prompt) key ;;
    ret (with_content prompt decryptedContent).

(** [decryptPrompt(prompt)]. *)
Definition decryptPrompt (prompt : Prompt) : M Prompt :=
  try_catch (decryptPrompt_try prompt) (fun error => ret prompt).

(** The [for] loop of [decryptPrompts]: [decryptedPrompts] is the array
    filled so far. *)
Fixpoint decryptPrompts_loop (prompts decryptedPrompts : list Prompt) : M (list Prompt) :=
  match prompts with
  | [] => ret decryptedPrompts
  | prompt :: rest =>
      decryptedPrompt <- decryptPrompt prompt ;;
      decryptPrompts_loop rest (decryptedPrompts ++ [decryptedPrompt])
  end.

(** [decryptPrompts(prompts)]. *)
Definition decryptPrompts (prompts : list Prompt) : M (list Prompt) :=
  decryptPrompts_loop prompts [].

(** The body of the [try] block of [decryptPromptOnDemand]. *)
Definition decryptPromptOnDemand_try (prompt : Prompt) : M string :=
  key <- generateLocalEncryptionKey ;;
  encrypted <- isEncrypted (content prompt) key ;;
  if negb encrypted then ret (content prompt)
  else decryptText (content prompt) key.

(** [decryptPromptOnDemand(prompt)]. *)
Definition decryptPromptOnDemand (prompt : Prompt) : M string :=
  try_catch (decryptPromptOnDemand_try prompt) (fun error => ret (content prompt)).

End Encryption.

(** ** The prompt repository *)

(** [String(v)] for an optional string. *)
Definition String_of (v : option string) : string :=
  match v with
  | Some s => s
  | None => "undefined"
  end.

(** The object literal [newPromptData] of [copyPrompt]. *)
Definition newPromptData (originalPrompt : Prompt) (createdAt' updatedAt' : Date) : Prompt :=
  {| id := None;
     title := title originalPrompt ++ " (复制)";
     type := type originalPrompt;
     content := content originalPrompt;
     description := description originalPrompt;
     examples := examples originalPrompt;
     isPublic := Some false;
     userId := userId originalPrompt;
     createdAt := createdAt';
     updatedAt := updatedAt';
     publicChangedAt := None |}.

(** [delete newPromptData.publicChangedAt] when the property is there. *)
Definition drop_publicChangedAt (prompt : Prompt) : Prompt :=
  match publicChangedAt prompt with
  | Some _ =>
      mkPrompt (id prompt) (title prompt) (type prompt) (content prompt)
        (description prompt) (examples prompt) (createdAt prompt)
        (updatedAt prompt) (userId prompt) (isPublic prompt) None
  | None => prompt
  end.

Section PromptRepository.
Context {C : CryptoJS}.

(** [addPrompt(prompt)]. *)
Definition addPrompt (prompt : Prompt) : M Prompt :=
  encryptedPrompt <- encryptPrompt prompt ;;
  dbOperations.add MAIN PROMPTS encryptedPrompt.

(** [getPromptById(id, decryptContent)]. *)
Definition getPromptById (id : string) (decryptContent : bool) : M (option Prompt) :=
  prompt <- dbOperations.getById MAIN PROMPTS id ;;
  match prompt with
  | None => ret None
  | Some prompt =>
      if decryptContent then
        decrypted <- decryptPrompt prompt ;;
        ret (Some decrypted)
      else ret (Some prompt)
  end.

(** The object [updatePrompt] hands to [dbOperations.update]:
    [{ ...encryptedPrompt, id: String(prompt.id) }]. *)
Definition updatePrompt_payload (prompt : Prompt) : M Prompt :=
  if falsy_opt (id prompt) then throw (Error "Prompt ID is required for update")
  else
    encryptedPrompt <- encryptPrompt prompt ;;
    ret (with_id encryptedPrompt (String_of (id prompt))).

(** [updatePrompt(prompt)]. *)
Definition updatePrompt (prompt : Prompt) : M Prompt :=
  payload <- updatePrompt_payload prompt ;;
  dbOperations.update MAIN PROMPTS payload.

(** [deletePrompt(id)]. *)
Definition deletePrompt (id : string) : M unit :=
  dbOperations.remove MAIN PROMPTS id.

(** The object [copyPrompt] hands to [addPrompt]. *)
Definition copyPrompt_payload (promptId : string) : M Prompt :=
  originalPrompt <- getPromptById promptId true ;;
  match originalPrompt with
  | None => throw (Error "要复制的提示词不存在。")
  | Some originalPrompt =>
      createdAt <- new_Date ;;
      updatedAt <- new_Date ;;
      ret (drop_publicChangedAt (newPromptData originalPrompt createdAt updatedAt))
  end.

(** [copyPrompt(promptId)]. *)
Definition copyPrompt (promptId : string) : M Prompt :=
  payload <- copyPrompt_payload promptId ;;
  addPrompt payload.

End PromptRepository.

(** ** The user prompt selection repository *)

(** The test of [some] and [find]:
    [sel.promptId === promptId && sel.userId === userId]. *)
Definition selects (promptId userId : string) (sel : UserPromptSelection) : bool :=
  String.eqb (sel_promptId sel) promptId && String.eqb (sel_userId sel) userId.

(** A parameter with the default value ['local_user']. *)
Definition or_local_user (userId : option string) : string :=
  match userId with
  | Some u => u
  | None => "local_user"
  end.

(** [getUserPromptSelections(userId)]. *)
Definition getUserPromptSelections (userId : option string) : M (list string) :=
  selections <- dbOperations.getAll MAIN USER_PROMPT_SELECTIONS ;;
  let userSelections :=
    match truthy userId with
    | Some userId => filter (fun selection => sel_userId selection = userId) selections
    | None => selections
    end in
  ret (map sel_promptId userSelections).

(** [addUserPromptSelection(promptId, userId)].  Where [some] held, [find]
    cannot miss (lemma [find_of_existsb]), so the last branch of the
    [match] is never taken; it stands for the [!] of the source. *)
Definition addUserPromptSelection (promptId : string) (userId : option string)
    : M UserPromptSelection :=
  let userId := or_local_user userId in
  createdAt <- new_Date ;;
  let newSelection := mkSelection None userId promptId createdAt in
  existingSelections <- dbOperations.getAll MAIN USER_PROMPT_SELECTIONS ;;
  let alreadyExists := existsb (selects promptId userId) existingSelections in
  if alreadyExists then
    match find (selects promptId userId) existingSelections with
    | Some existing => ret existing
    | None => throw (Error "undefined")
    end
  else
    addedSelection <- dbOperations.add MAIN USER_PROMPT_SELECTIONS newSelection ;;
    ret addedSelection.

(** [removeUserPromptSelection(promptId, userId)]. *)
Definition removeUserPromptSelection (promptId : string) (userId : option string)
    : M unit :=
  let userId := or_local_user userId in
  selections <- dbOperations.getAll MAIN USER_PROMPT_SELECTIONS ;;
  let selectionToRemove := find (selects promptId userId) selections in
  match selectionToRemove with
  | Some selection =>
      match truthy (sel_id selection) with
      | Some i => dbOperations.remove MAIN USER_PROMPT_SELECTIONS i
      | None => ret tt
      end
  | None => ret tt
  end.

(** [isPromptSelectedByUser(promptId, userId)]. *)
Definition isPromptSelectedByUser (promptId : string) (userId : option string) : M bool :=
  selections <- getUserPromptSelections (Some (or_local_user userId)) ;;
  ret (bool_decide (promptId ∈ selections)).

(** ** The page's save handler

    [onSave] of app/prompts/type/[type]/page.tsx builds the record it
    passes to [updatePrompt]:
    [const { isPublic, ...restOfEditedPrompt } = editedPrompt] and then
    [{ ...restOfEditedPrompt, updatedAt: now }]. *)
Definition onSave_updatedData (editedPrompt : Prompt) (now : Date) : Prompt :=
  {| id := id editedPrompt;
     title := title editedPrompt;
     type := type editedPrompt;
     content := content editedPrompt;
     description := description editedPrompt;
     examples := examples editedPrompt;
     createdAt := createdAt editedPrompt;
     updatedAt := now;
     userId := userId editedPrompt;
     isPublic := None;
     publicChangedAt := publicChangedAt editedPrompt |}.

(** ** What the properties are stated with *)

(** The value a computation returns in a world, if it returns one. *)
Definition returns {A} (m : M A) (w : World) : option A :=
  match m w with
  | (Ok a, _) => Some a
  | (Throw _, _) => None
  end.

(** The world a computation leaves behind. *)
Definition world_after {A} (m : M A) (w : World) : World := snd (m w).

(** The key slot holds the key [key], which is not empty. *)
Definition active_key (key : string) (w : World) : Prop :=
  localStorage w !! "zhuguang_local_encryption_key" = Some key /\ key <> "".

(** [w'] is [w] after some bytes were taken from the random source, and
    nothing else happened. *)
Definition drew (w w' : World) : Prop :=
  w' = set_drawn (drawn w') w /\ drawn w <= drawn w'.

(** The salt the next [AES.decrypt] of [text] draws in [w], if it draws
    one, and the world it leaves. *)
Definition next_salt {C : CryptoJS} (text : string) (w : World) : option (list byte) :=
  if OpenSSL_salted text then None
  else Some (map (entropy w) (seq (drawn w) 8)).

Definition after_salt {C : CryptoJS} (text : string) (w : World) : World :=
  if OpenSSL_salted text then w else set_drawn (drawn w + 8) w.

(** What [decryptText] makes of a text once the salt is known. *)
Definition decrypted_under {C : CryptoJS} (salt : option (list byte))
    (text key : string) : result string :=
  match AES_decrypt text key salt with
  | Throw e => Throw e
  | Ok bytes =>
      match enc_Utf8 bytes with
      | Throw e => Throw e
      | Ok decrypted =>
          if falsy decrypted
          then Throw (Error "Decryption failed or resulted in empty string")
          else Ok decrypted
      end
  end.

(** What [isEncrypted] makes of the outcome of its [decryptText]. *)
Definition detected (outcome : result string) (text : string) : bool :=
  match outcome with
  | Ok decrypted => negb (String.eqb decrypted text)
  | Throw _ => false
  end.

(** No call of the gateway draws a salt for [text]: it does not start with
    the marker, so that no decryption is tried, or it carries its salt.
    What the gateway makes of such a text depends on the key only. *)
Definition no_salt_drawn {C : CryptoJS} (text : string) : bool :=
  negb (startsWith text "U2F") || OpenSSL_salted text.

(** The time of the last change of a record, when its date is valid. *)
Definition updated (p : Prompt) : option Z := Date_getTime (updatedAt p).

(** Every record carries a valid date of its last change. *)
Definition valid_dates (l : list Prompt) : Prop :=
  Forall (fun p => is_Some (updated p)) l.

(** [a] is at least as recent as [b]. *)
Definition not_older (a b : Prompt) : Prop :=
  match updated a, updated b with
  | Some ta, Some tb => (tb <= ta)%Z
  | _, _ => False
  end.

(** Newest first: every record is at least as recent as those behind it. *)
Definition newest_first (l : list Prompt) : Prop :=
  StronglySorted not_older l.

(** [n] calls of [generateLocalEncryptionKey] in a row, with the keys they
    return. *)
Fixpoint successive_keys (n : nat) : M (list string) :=
  match n with
  | O => ret []
  | S n' =>
      key <- generateLocalEncryptionKey ;;
      keys <- successive_keys n' ;;
      ret (key :: keys)
  end.

(** No two stored selections share their [(promptId, userId)] pair. *)
Definition selections_unique (m : gmap string UserPromptSelection) : Prop :=
  forall i j s t,
    m !! i = Some s -> m !! j = Some t ->
    sel_promptId s = sel_promptId t -> sel_userId s = sel_userId t ->
    i = j.

(** ** More of the prompt repository *)

(** What [sort] reads from a call of its comparator: the number returned,
    with [NaN] ([None]) taken as zero. *)
Definition SortCompare {A} (compare : A -> A -> option Z) (a b : A) : Z :=
  match compare a b with
  | Some v => v
  | None => 0%Z
  end.

(** [array.sort(compare)].  The sort of the language is stable: [a] goes
    before [b] when [compare(a, b) < 0], and two elements that compare
    equal keep their order.  Each element is put in front of the sorted
    rest, behind the elements that must precede it.  For a comparator
    that is not a consistent order, as one that returns [NaN] for some
    pairs only, the language leaves the outcome to the implementation:
    what is computed here is then one possible outcome, and nothing is
    stated about it below. *)
Fixpoint sort_insert {A} (compare : A -> A -> option Z) (a : A) (sorted : list A) : list A :=
  match sorted with
  | [] => [a]
  | b :: rest =>
      if (SortCompare compare b a <? 0)%Z then b :: sort_insert compare a rest
      else a :: b :: rest
  end.

Definition Array_sort {A} (compare : A -> A -> option Z) (array : list A) : list A :=
  foldr (sort_insert compare) [] array.

(** [(a, b) => new Date(b.updatedAt).getTime() - new Date(a.updatedAt).getTime()].
    The difference is [NaN] when one of the two times is.  The difference
    of two times is rounded to a floating point number, which keeps its
    sign, and [sort] reads the sign only; the exact difference stands for
    it. *)
Definition by_updatedAt_desc (a b : Prompt) : option Z :=
  match Date_getTime (updatedAt b), Date_getTime (updatedAt a) with
  | Some tb, Some ta => Some (tb - ta)%Z
  | _, _ => None
  end.

(** [isUserPrompt(prompt, userId)]. *)
Definition isUserPrompt (prompt : Prompt) (userId' : option string) : M bool :=
  match truthy userId', truthy (userId prompt) with
  | Some u, Some owner => ret (String.eqb owner u)
  | _, _ => ret true
  end.

Section PromptLists.
Context {C : CryptoJS}.

(** [getAllPrompts(decryptContents)]. *)
Definition getAllPrompts (decryptContents : bool) : M (list Prompt) :=
  prompts <- dbOperations.getAll MAIN PROMPTS ;;
  let sortedPrompts := Array_sort by_updatedAt_desc prompts in
  if decryptContents then decryptPrompts sortedPrompts
  else ret sortedPrompts.

(** [getPromptsByType(type, decryptContents)]. *)
Definition getPromptsByType (type' : string) (decryptContents : bool) : M (list Prompt) :=
  prompts <- dbOperations.getAll MAIN PROMPTS ;;
  let filteredPrompts := filter (fun prompt => type prompt = type') prompts in
  let sortedPrompts := Array_sort by_updatedAt_desc filteredPrompts in
  if decryptContents then decryptPrompts sortedPrompts
  else ret sortedPrompts.

(** [getAIInterfacePromptsByType], [getPublicPrompts] and
    [getUserCreatedPrompts]. *)
Definition getAIInterfacePromptsByType (type' : string) (decryptContents : bool)
    : M (list Prompt) :=
  getPromptsByType type' decryptContents.

Definition getPublicPrompts (type' : string) (decryptContents : bool) : M (list Prompt) :=
  getPromptsByType type' decryptContents.

Definition getUserCreatedPrompts (type' : string) (decryptContents : bool)
    : M (list Prompt) :=
  getPromptsByType type' decryptContents.

End PromptLists.

(** ** The prompt page: app/prompts/type/[type]/page.tsx *)

(** An entry of [promptTypeMap]. *)
Record TypeInfo : Type := mkTypeInfo {
  label : string;
  color : string;
  icon : string;
  group : string;
  gradient : string
}.

Definition promptTypeMap : list (string * TypeInfo) :=
  [ ("ai_writing", mkTypeInfo "AI写作" "bg-[#5a9d6b] text-white" "create" "novel" "from-[#5a9d6b] to-[#4a8d5b]");
    ("ai_polishing", mkTypeInfo "AI润色" "bg-[#7D85CC] text-white" "auto_fix_high" "novel" "from-[#7D85CC] to-[#6F9CE0]");
    ("ai_analysis", mkTypeInfo "AI分析" "bg-[#9C6FE0] text-white" "analytics" "novel" "from-[#9C6FE0] to-[#7D85CC]");
    ("worldbuilding", mkTypeInfo "世界观" "bg-[#E06F9C] text-white" "public" "creative" "from-[#E06F9C] to-[#E0976F]");
    ("character", mkTypeInfo "角色" "bg-[#9C6FE0] text-white" "person" "creative" "from-[#9C6FE0] to-[#7D85CC]");
    ("plot", mkTypeInfo "情节" "bg-[#6F9CE0] text-white" "timeline" "creative" "from-[#6F9CE0] to-[#9C6FE0]");
    ("introduction", mkTypeInfo "导语" "bg-[#7D85CC] text-white" "format_quote" "creative" "from-[#7D85CC] to-[#6F9CE0]");
    ("outline", mkTypeInfo "大纲" "bg-[#E0976F] text-white" "format_list_bulleted" "creative" "from-[#E0976F] to-[#E0C56F]");
    ("detailed_outline", mkTypeInfo "细纲" "bg-[#E0C56F] text-white" "subject" "creative" "from-[#E0C56F] to-[#E0976F]");
    ("book_tool", mkTypeInfo "一键拆书" "bg-[#E0976F] text-white" "auto_stories" "tools" "from-[#E0976F] to-[#E0C56F]") ].

(** The own property [promptTypeMap[type]], if there is one. *)
Fixpoint own_property {A} (object : list (string * A)) (key : string) : option A :=
  match object with
  | [] => None
  | (k, v) :: rest => if String.eqb k key then Some v else own_property rest key
  end.

(** [isValidPromptType(type)]: [Object.keys(promptTypeMap).includes(type)]. *)
Definition isValidPromptType (type' : string) : bool :=
  existsb (String.eqb type') (map fst promptTypeMap).

(** [s.split(' ')] for a one character separator: the pieces between the
    separators, one piece more than there are separators. *)
Fixpoint split_at (separator : ascii) (s : string) : list string :=
  match s with
  | EmptyString => [EmptyString]
  | String a s' =>
      if Ascii.eqb a separator then EmptyString :: split_at separator s'
      else
        match split_at separator s' with
        | piece :: pieces => String a piece :: pieces
        | [] => [String a EmptyString]
        end
  end.

(** [Some r] when [s] is [pattern ++ r]. *)
Fixpoint starts_with_then (pattern s : string) : option string :=
  match pattern, s with
  | EmptyString, _ => Some s
  | String a pattern', String b s' =>
      if Ascii.eqb a b then starts_with_then pattern' s' else None
  | String _ _, EmptyString => None
  end.

(** [s.replace(pattern, replacement)] for a string [pattern], and for the
    regular expression of one literal character: the first occurrence is
    replaced.  The replacements of the page hold no [$], so none of the
    replacement patterns of the language applies. *)
Fixpoint String_replace (pattern replacement s : string) : string :=
  match starts_with_then pattern s with
  | Some rest => (replacement ++ rest)%string
  | None =>
      match s with
      | EmptyString => EmptyString
      | String a s' => String a (String_replace pattern replacement s')
      end
  end.

(** [v || fallback] for an optional string. *)
Definition or_else (v : option string) (fallback : string) : string :=
  match truthy v with
  | Some s => s
  | None => fallback
  end.

(** [getTypeColor(type)] of the page.  [promptTypeMap[type]] is the entry
    of the table when [type] is one of its keys.  For any other name the
    lookup goes to [Object.prototype]: [inherited] tells the names found
    there (such as [constructor] and [toString]).  What is found there has
    no [color], and [.split] on [undefined] throws; a name found nowhere
    gives [undefined], which [?.] lets through to the fallback. *)
Definition getTypeColor (inherited : string -> bool) (type' : string) : result string :=
  let colorText :=
    match own_property promptTypeMap type' with
    | Some info => Ok (or_else (split_at " " (color info) !! 1) "text-white")
    | None =>
        if inherited type'
        then Throw (Error "Cannot read properties of undefined (reading 'split')")
        else Ok "text-white"
    end in
  result_bind colorText (fun colorText =>
  Ok (String_replace "]" ", 0.7)" (String_replace "text-" "rgba(" colorText))).

(** The list of the page after a prompt was created or copied:
    [[newPrompt, ...prev].sort(...)]. *)
Definition setPrompts_added (newPrompt : Prompt) (prev : list Prompt) : list Prompt :=
  Array_sort by_updatedAt_desc (newPrompt :: prev).

(** The list of the page after a prompt was deleted:
    [prev.filter(p => p.id !== selectedPrompt.id)]. *)
Definition setPrompts_deleted (selectedPrompt : Prompt) (prev : list Prompt) : list Prompt :=
  filter (fun p => id p <> id selectedPrompt) prev.

(** The list of the page after a prompt was saved:
    [prev.map(p => p.id === updated.id ? updated : p).sort(...)]. *)
Definition setPrompts_saved (updated : Prompt) (prev : list Prompt) : list Prompt :=
  Array_sort by_updatedAt_desc
    (map (fun p => if decide (id p = id updated) then updated else p) prev).

(** ** The prompt selection modal *)

(** [s.includes(term)]. *)
Fixpoint includes (s term : string) : bool :=
  if String.prefix term s then true
  else
    match s with
    | EmptyString => false
    | String _ s' => includes s' term
    end.

Definition PAGE_SIZE : nat := 20.

Section Modal.
(** [s.toLowerCase()], which follows the Unicode tables, is left open. *)
Variable toLowerCase : string -> string.

(** The test of the filter of the modal. *)
Definition modal_matches (searchTerm : string) (prompt : Prompt) : bool :=
  includes (toLowerCase (title prompt)) (toLowerCase searchTerm) ||
  match truthy (description prompt) with
  | Some description => includes (toLowerCase description) (toLowerCase searchTerm)
  | None => false
  end.

(** [filtered] of the effect that follows [prompts], [searchTerm] and
    [page]. *)
Definition modal_filtered (prompts : list Prompt) (searchTerm : string) : list Prompt :=
  if falsy searchTerm then prompts
  else List.filter (modal_matches searchTerm) prompts.

(** What the effect passes to [setFilteredPrompts] and to [setHasMore]. *)
Definition modal_filteredPrompts (prompts : list Prompt) (searchTerm : string) (page : nat)
    : list Prompt :=
  take (page * PAGE_SIZE) (modal_filtered prompts searchTerm).

Definition modal_hasMore (prompts : list Prompt) (searchTerm : string) (page : nat) : bool :=
  (page * PAGE_SIZE <? length (modal_filtered prompts searchTerm))%nat.

End Modal.

(** One call of [handleScroll]: what it does to [page].  [hasMore] and
    [isLoading] are the state the callback was made with, [mounted] tells
    whether [scrollContainerRef.current] is set, and [nearBottom] is
    [scrollTop + clientHeight >= scrollHeight - 100].  The update is
    [setPage(prev => prev + 1)], so that the calls made before the next
    rendering add up. *)
Definition handleScroll (mounted hasMore isLoading nearBottom : bool) (page : nat) : nat :=
  if negb mounted || negb hasMore || isLoading then page
  else if nearBottom then page + 1 else page.

(** ** A reference implementation of the CryptoJS interface

    It is there to run the code on concrete inputs and to show that the
    laws of [CryptoJS_laws] can be met together; it hides nothing.  A
    ciphertext is the envelope marker, the salt in hex, and the passphrase
    and the text after a bar each.  A string can be encoded when it holds
    no byte 255. *)
Module Reference.

Definition encodable_bytes (bytes : list byte) : bool :=
  forallb (fun b => negb (Byte.eqb b "255"%byte)) bytes.

Definition encodable (s : string) : bool :=
  encodable_bytes (list_byte_of_string s).

(** [strip_prefix p s] is [Some r] when [s] is [p ++ r]. *)
Fixpoint strip_prefix (p s : string) : option string :=
  match p, s with
  | EmptyString, _ => Some s
  | String a p', String b s' =>
      if Ascii.eqb a b then strip_prefix p' s' else None
  | String _ _, EmptyString => None
  end.

(** What follows the first bar of [s]. *)
Fixpoint after_bar (s : string) : string :=
  match s with
  | EmptyString => EmptyString
  | String a s' => if Ascii.eqb a "|" then s' else after_bar s'
  end.

Definition encrypt (text key : string) (salt : list byte) : result string :=
  if encodable text && encodable key
  then Ok ("U2FsdGVkX1" ++ enc_Hex salt ++ "|" ++ key ++ "|" ++ text)%string
  else Throw (Error "URI malformed").

(** The envelopes are the texts that start with the marker. *)
Definition salted (ciphertext : string) : bool :=
  String.prefix "U2FsdGVkX1" ciphertext.

(** A text that is no envelope decrypts to bytes that depend on the salt
    drawn for it: to the salt itself. *)
Definition decrypt (ciphertext key : string) (drawn_salt : option (list byte))
    : result (list byte) :=
  match strip_prefix "U2FsdGVkX1" ciphertext with
  | None =>
      match drawn_salt with
      | Some salt => Ok salt
      | None => Ok []
      end
  | Some body =>
      match strip_prefix (key ++ "|")%string (after_bar body) with
      | Some text => Ok (list_byte_of_string text)
      | None => Ok ["255"%byte]
      end
  end.

Definition stringify (bytes : list byte) : result string :=
  if encodable_bytes bytes then Ok (string_of_list_byte bytes)
  else Throw (Error "Malformed UTF-8 data").

Definition cryptojs : CryptoJS :=
  {| AES_encrypt := encrypt;
     OpenSSL_salted := salted;
     AES_decrypt := decrypt;
     enc_Utf8 := stringify;
     Utf8_ok := encodable |}.

(** A browser with nothing stored. *)
Definition empty_world : World :=
  {| localStorage := ∅;
     entropy := fun i =>
       match Byte.of_N (N.of_nat (i * 37 + 11) mod 256) with
       | Some b => b
       | None => "000"%byte
       end;
     drawn := 0;
     wallclock := fun i => time (1700000000000 + Z.of_nat i);
     clock_reads := 0;
     db_prompts := ∅;
     db_selections := ∅ |}.

(** A draft as the create form submits it. *)
Definition draft (text : string) : Prompt :=
  {| id := None; title := "Opening"; type := "ai_writing"; content := text;
     description := None; examples := []; createdAt := time 1700000000000;
     updatedAt := time 1700000000000; userId := None; isPublic := Some true;
     publicChangedAt := None |}.

(** The world after that draft was added to the empty world. *)
Definition one_prompt_world : World :=
  world_after (addPrompt (C := cryptojs) (draft "hello")) empty_world.

(** The world after the local user selected the prompt [p1] in the empty
    world. *)
Definition one_selection_world : World :=
  world_after (addUserPromptSelection "p1" None) empty_world.

End Reference.

(** ** Sample data for the further properties *)
Module Samples.
Import Reference.

(** A prompt of the given type and content, last changed at the given
    time. *)
Definition note (type' text : string) (changed : Date) : Prompt :=
  {| id := None; title := "Note"; type := type'; content := text;
     description := None; examples := []; createdAt := time 1700000000000;
     updatedAt := changed; userId := Some "ann"; isPublic := None;
     publicChangedAt := None |}.

(** Three prompts added to the empty world, the second the newest. *)
Definition library_world : World :=
  world_after (addPrompt (C := cryptojs) (note "ai_writing" "third" (time 1700000000200)))
    (world_after (addPrompt (C := cryptojs) (note "ai_writing" "second" (time 1700000000300)))
       (world_after (addPrompt (C := cryptojs) (note "plot" "first" (time 1700000000100)))
          empty_world)).

(** The key of the reference worlds. *)
Definition sample_key : string :=
  "0b30557a9fc4e90e33587da2c7ec11365b80a5caef14395e83a8cdf2173c6186".

(** The prompt stored in [one_prompt_world]. *)
Definition stored_draft : Prompt :=
  with_id (with_content (draft "hello")
    "U2FsdGVkX1abd0f51a3f6489ae|0b30557a9fc4e90e33587da2c7ec11365b80a5caef14395e83a8cdf2173c6186|hello") "0".

(** The selection stored in [one_selection_world]. *)
Definition stored_selection : UserPromptSelection :=
  mkSelection (Some "0") "local_user" "p1" (time 1700000000000).

(** A text that starts with the marker and is no envelope. *)
Definition marked_text : string := "U2FExdchow5DMUdlu2BJSa==".

(** The browser of [one_prompt_world] after more bytes were taken from
    the random source.  Of the next salts of eight bytes, the first
    reads as text and the second does not: it holds the byte 255. *)
Definition later_world : World := set_drawn 213 one_prompt_world.

(** The names every object inherits from [Object.prototype]. *)
Definition Object_prototype_names : list string :=
  ["constructor"; "hasOwnProperty"; "isPrototypeOf"; "propertyIsEnumerable";
   "toLocaleString"; "toString"; "valueOf"; "__proto__";
   "__defineGetter__"; "__defineSetter__"; "__lookupGetter__"; "__lookupSetter__"].

Definition inherited (name : string) : bool :=
  existsb (String.eqb name) Object_prototype_names.

End Samples.

(** * Properties *)

(** ** Strings *)

Lemma falsy_true (s : string) : falsy s = true <-> s = "".
Proof. destruct s; simpl; split; congruence. Qed.

Lemma falsy_false (s : string) : falsy s = false <-> s <> "".
Proof. destruct s; simpl; split; congruence. Qed.

Lemma truthy_Some (v : option string) (k : string) :
  truthy v = Some k <-> v = Some k /\ k <> "".
Proof.
  destruct v as [[|a s]|]; simpl; split.
  - intros E. discriminate E.
  - intros [E N]. inversion E. subst k. congruence.
  - intros E. inversion E. split; [reflexivity | discriminate].
  - intros [E _]. exact E.
  - intros E. discriminate E.
  - intros [E _]. discriminate E.
Qed.

Lemma truthy_None (v : option string) :
  truthy v = None <-> v = None \/ v = Some "".
Proof.
  destruct v as [[|a s]|]; simpl; intuition congruence.
Qed.

Lemma prefix_app_l (a b s : string) :
  String.prefix (a ++ b) s = true -> String.prefix a s = true.
Proof.
  revert s. induction a as [|x a IH]; intros s H.
  - destruct s; reflexivity.
  - destruct s as [|y s]; simpl in *; [discriminate |].
    destruct (ascii_dec x y); [apply IH; exact H | discriminate].
Qed.

Lemma startsWith_U2F (c : string) :
  startsWith c "U2FsdGVkX1" = true -> startsWith c "U2F" = true.
Proof. unfold startsWith. apply (prefix_app_l "U2F" "sdGVkX1"). Qed.

Lemma startsWith_nonempty (c : string) :
  startsWith c "U2F" = true -> c <> "".
Proof. intros H E. subst c. discriminate H. Qed.

Lemma enc_Hex_length (bytes : list byte) :
  String.length (enc_Hex bytes) = 2 * length bytes.
Proof. induction bytes as [|b l IH]; simpl; [reflexivity | rewrite IH; lia]. Qed.

Lemma length_neq (s t : string) : String.length s <> String.length t -> s <> t.
Proof. congruence. Qed.

(** ** The key manager *)

(** A stored key that is not empty is returned, and nothing changes. *)
Lemma generateLocalEncryptionKey_stored (w : World) (k : string) :
  localStorage w !! "zhuguang_local_encryption_key" = Some k -> k <> "" ->
  generateLocalEncryptionKey w = (Ok k, w).
Proof.
  intros Hk Hne. unfold generateLocalEncryptionKey, bind, localStorage_getItem.
  rewrite Hk. simpl. apply falsy_false in Hne. rewrite Hne. reflexivity.
Qed.

(** When the slot holds nothing, or the empty string, a key is made from
    the next 32 random bytes and stored. *)
Lemma generateLocalEncryptionKey_new (w : World) :
  truthy (localStorage w !! "zhuguang_local_encryption_key") = None ->
  generateLocalEncryptionKey w =
    (Ok (enc_Hex (map (entropy w) (seq (drawn w) 32))),
     set_localStorage
       (insert "zhuguang_local_encryption_key"
          (enc_Hex (map (entropy w) (seq (drawn w) 32))))
       (set_drawn (drawn w + 32) w)).
Proof.
  intros Hk. unfold generateLocalEncryptionKey, bind, localStorage_getItem.
  rewrite Hk. reflexivity.
Qed.

(** [generateLocalEncryptionKey] always returns a key, the key is not
    empty, and it is in the slot afterwards. *)
Lemma generateLocalEncryptionKey_total (w : World) :
  exists k w1,
    generateLocalEncryptionKey w = (Ok k, w1) /\ k <> "" /\
    localStorage w1 !! "zhuguang_local_encryption_key" = Some k.
Proof.
  destruct (truthy (localStorage w !! "zhuguang_local_encryption_key"))
    as [k|] eqn:Hk.
  - apply truthy_Some in Hk as [Hk Hne]. exists k, w.
    rewrite (generateLocalEncryptionKey_stored w k Hk Hne). auto.
  - rewrite (generateLocalEncryptionKey_new w Hk).
    eexists _, _. split; [reflexivity|]. split.
    + apply length_neq. rewrite enc_Hex_length, length_map, length_seq.
      discriminate.
    + simpl. apply lookup_insert_eq.
Qed.

(** A second call finds the key of the first and changes nothing. *)
Lemma generateLocalEncryptionKey_again (w w1 : World) (k : string) :
  generateLocalEncryptionKey w = (Ok k, w1) ->
  generateLocalEncryptionKey w1 = (Ok k, w1).
Proof.
  intros H. destruct (generateLocalEncryptionKey_total w) as (k' & w' & H' & Hne & Hs).
  rewrite H in H'. inversion H'. subst k' w'.
  apply generateLocalEncryptionKey_stored; assumption.
Qed.

(** Only the key slot and the random source are touched. *)
Lemma generateLocalEncryptionKey_frame (w w1 : World) (k : string) :
  generateLocalEncryptionKey w = (Ok k, w1) ->
  db_prompts w1 = db_prompts w /\
  db_selections w1 = db_selections w /\
  clock_reads w1 = clock_reads w /\ wallclock w1 = wallclock w /\
  entropy w1 = entropy w.
Proof.
  destruct (truthy (localStorage w !! "zhuguang_local_encryption_key"))
    as [k'|] eqn:Hk.
  - apply truthy_Some in Hk as [Hk Hne].
    rewrite (generateLocalEncryptionKey_stored w k' Hk Hne).
    intros H. inversion H. subst. auto.
  - rewrite (generateLocalEncryptionKey_new w Hk).
    intros H. inversion H. subst. simpl. auto.
Qed.

(** Drawing from the random source leaves the key where it is. *)
Lemma generateLocalEncryptionKey_set_drawn (w : World) (k : string) (n : nat) :
  generateLocalEncryptionKey w = (Ok k, w) ->
  generateLocalEncryptionKey (set_drawn n w) = (Ok k, set_drawn n w).
Proof.
  intros H. destruct (generateLocalEncryptionKey_total w) as (k' & w' & H' & Hne & Hs).
  rewrite H in H'. inversion H'. subst k' w'.
  apply generateLocalEncryptionKey_stored; assumption.
Qed.

Lemma successive_keys_stored (w1 : World) (k : string) (n : nat) :
  generateLocalEncryptionKey w1 = (Ok k, w1) ->
  successive_keys n w1 = (Ok (repeat k n), w1).
Proof.
  intros H. induction n as [|n IH]; [reflexivity|].
  cbn [successive_keys repeat]. unfold bind. rewrite H, IH. reflexivity.
Qed.

(** C8. From a world whose key slot holds nothing, the first call of
    [generateLocalEncryptionKey] makes a key from the next 32 random bytes
    and stores it in the slot; any number of further calls return that
    same key and leave the world, the slot included, as the first call
    left it. *)
Theorem generateLocalEncryptionKey_once (w : World) :
  localStorage w !! "zhuguang_local_encryption_key" = None ->
  exists k w1,
    generateLocalEncryptionKey w = (Ok k, w1) /\
    k = enc_Hex (map (entropy w) (seq (drawn w) 32)) /\
    localStorage w1 = <["zhuguang_local_encryption_key" := k]> (localStorage w) /\
    forall n, successive_keys n w1 = (Ok (repeat k n), w1).
Proof.
  intros Hnone.
  assert (Ht : truthy (localStorage w !! "zhuguang_local_encryption_key") = None)
    by (rewrite Hnone; reflexivity).
  pose proof (generateLocalEncryptionKey_new w Ht) as Hnew.
  eexists _, _. split; [exact Hnew|]. split; [reflexivity|].
  split; [reflexivity|].
  intros n. apply successive_keys_stored.
  exact (generateLocalEncryptionKey_again _ _ _ Hnew).
Qed.

(** The same from any world: whatever the slot holds at first, every call
    in a row returns the key of the first. *)
Lemma successive_keys_constant (w : World) (n : nat) :
  exists k w1, successive_keys (S n) w = (Ok (repeat k (S n)), w1).
Proof.
  destruct (generateLocalEncryptionKey_total w) as (k & w1 & H & _ & _).
  exists k, w1. pose proof (generateLocalEncryptionKey_again _ _ _ H) as H1.
  cbn [successive_keys repeat]. unfold bind.
  rewrite H, (successive_keys_stored w1 k n H1). reflexivity.
Qed.

(** ** The world *)

Lemma drew_refl (w : World) : drew w w.
Proof. split; [destruct w; reflexivity | lia]. Qed.

Lemma drew_trans (w w' w'' : World) : drew w w' -> drew w' w'' -> drew w w''.
Proof.
  intros [E1 H1] [E2 H2]. split; [|lia].
  rewrite E2 at 1. rewrite E1. reflexivity.
Qed.

Lemma drew_set_drawn (w : World) (n : nat) : drew w (set_drawn (drawn w + n) w).
Proof. split; [reflexivity | simpl; lia]. Qed.

(** Taking bytes from the random source changes nothing else. *)
Lemma drew_frame (w w' : World) :
  drew w w' ->
  localStorage w' = localStorage w /\
  db_prompts w' = db_prompts w /\
  db_selections w' = db_selections w /\
  clock_reads w' = clock_reads w /\ wallclock w' = wallclock w /\
  entropy w' = entropy w.
Proof. intros [E _]. rewrite E. simpl. repeat split; reflexivity. Qed.

Lemma active_key_drew (k : string) (w w' : World) :
  active_key k w -> drew w w' -> active_key k w'.
Proof.
  unfold active_key. intros Hk Hd.
  destruct (drew_frame w w' Hd) as (-> & _). exact Hk.
Qed.

(** With a key in the slot, [generateLocalEncryptionKey] returns it and
    changes nothing. *)
Lemma generateLocalEncryptionKey_active (w : World) (k : string) :
  active_key k w -> generateLocalEncryptionKey w = (Ok k, w).
Proof. intros [Hk Hne]. apply generateLocalEncryptionKey_stored; assumption. Qed.

Lemma active_key_unique (w : World) (k k' : string) :
  active_key k w -> active_key k' w -> k = k'.
Proof. unfold active_key. intros [H _] [H' _]. congruence. Qed.

(** ** The cipher *)

Section Cipher.
Context {C : CryptoJS}.

Lemma after_salt_drew (text : string) (w : World) : drew w (after_salt text w).
Proof.
  unfold after_salt. destruct (OpenSSL_salted text);
    [apply drew_refl | apply drew_set_drawn].
Qed.

(** The call of the library, with the salt it draws. *)
Lemma CryptoJS_AES_decrypt_unfold (ciphertext key : string) (w : World) :
  CryptoJS_AES_decrypt ciphertext key w =
    (AES_decrypt ciphertext key (next_salt ciphertext w), after_salt ciphertext w).
Proof.
  unfold CryptoJS_AES_decrypt, next_salt, after_salt.
  destruct (OpenSSL_salted ciphertext); reflexivity.
Qed.

(** What [decryptText] returns, in terms of the library's two steps. *)
Lemma decryptText_unfold (encryptedText key : string) (w : World) :
  decryptText encryptedText key w =
    (decrypted_under (next_salt encryptedText w) encryptedText key,
     after_salt encryptedText w).
Proof.
  unfold decryptText, try_catch, bind. rewrite CryptoJS_AES_decrypt_unfold.
  unfold decrypted_under, lift, throw, ret.
  destruct (AES_decrypt encryptedText key (next_salt encryptedText w))
    as [bytes|e]; [|reflexivity].
  destruct (enc_Utf8 bytes) as [d|e]; [|reflexivity].
  destruct (falsy d); reflexivity.
Qed.

Lemma decrypted_under_not_empty (salt : option (list byte)) (text key : string) :
  decrypted_under salt text key <> Ok "".
Proof.
  unfold decrypted_under. destruct (AES_decrypt text key salt) as [bytes|e];
    [|discriminate].
  destruct (enc_Utf8 bytes) as [[|a d]|e]; discriminate.
Qed.

(** [encryptText] draws the salt and calls the library; what the library
    throws is replaced by the error of [encryptText]. *)
Lemma encryptText_unfold (text key : string) (w : World) :
  encryptText text key w =
    (match AES_encrypt text key (map (entropy w) (seq (drawn w) 8)) with
     | Ok c => Ok c
     | Throw _ => Throw (Error "加密失败")
     end,
     set_drawn (drawn w + 8) w).
Proof.
  unfold encryptText, try_catch, bind, WordArray_random, lift, throw.
  change (64 / 8) with 8.
  destruct (AES_encrypt text key (map (entropy w) (seq (drawn w) 8)));
    reflexivity.
Qed.

(** C5. [decryptText] is strict: when the library decrypts to the empty
    string, [decryptText] throws instead of returning it; what the library
    throws, in either of its two steps, reaches the caller as it is; and
    the empty string is never a result. *)
Theorem decryptText_empty_result_is_failure (encryptedText key : string) (w : World) :
  (forall bytes w',
     CryptoJS_AES_decrypt encryptedText key w = (Ok bytes, w') ->
     enc_Utf8 bytes = Ok "" ->
     decryptText encryptedText key w =
       (Throw (Error "Decryption failed or resulted in empty string"), w')) /\
  (forall e w',
     CryptoJS_AES_decrypt encryptedText key w = (Throw e, w') ->
     decryptText encryptedText key w = (Throw e, w')) /\
  (forall bytes e w',
     CryptoJS_AES_decrypt encryptedText key w = (Ok bytes, w') ->
     enc_Utf8 bytes = Throw e ->
     decryptText encryptedText key w = (Throw e, w')) /\
  fst (decryptText encryptedText key w) <> Ok "".
Proof.
  repeat split.
  - intros bytes w' Hb Hu. unfold decryptText, try_catch, bind, lift.
    rewrite Hb, Hu. reflexivity.
  - intros e w' He. unfold decryptText, try_catch, bind. rewrite He. reflexivity.
  - intros bytes e w' Hb Hu. unfold decryptText, try_catch, bind, lift.
    rewrite Hb, Hu. reflexivity.
  - rewrite decryptText_unfold. apply decrypted_under_not_empty.
Qed.

(** [isEncrypted], in terms of the outcome of its [decryptText]. *)
Lemma isEncrypted_unfold (text key : string) (w : World) :
  isEncrypted text key w =
    if falsy text || negb (startsWith text "U2F") then (Ok false, w)
    else (Ok (detected (decrypted_under (next_salt text w) text key) text),
          after_salt text w).
Proof.
  unfold isEncrypted. destruct (falsy text || negb (startsWith text "U2F"));
    [reflexivity|].
  unfold try_catch, bind. rewrite decryptText_unfold.
  destruct (decrypted_under (next_salt text w) text key); reflexivity.
Qed.

(** [isEncrypted] always answers, and only draws from the random source. *)
Lemma isEncrypted_returns (text key : string) (w : World) :
  exists b w', isEncrypted text key w = (Ok b, w') /\ drew w w'.
Proof.
  rewrite isEncrypted_unfold.
  destruct (falsy text || negb (startsWith text "U2F")).
  - exists false, w. split; [reflexivity | apply drew_refl].
  - eexists _, _. split; [reflexivity | apply after_salt_drew].
Qed.

(** A text without the marker is not tried. *)
Lemma isEncrypted_unmarked (text key : string) (w : World) :
  startsWith text "U2F" = false -> isEncrypted text key w = (Ok false, w).
Proof.
  intros H. rewrite isEncrypted_unfold, H, orb_true_r. reflexivity.
Qed.

(** C2. [isEncrypted] answers [false] on the empty text and on a text
    that does not start with [U2F], without trying to decrypt; on any other
    text it runs [decryptText] and answers [true] exactly when that call
    returns a text different from the input; and it answers [false]
    whenever [decryptText] throws. *)
Theorem isEncrypted_spec (text key : string) (w : World) :
  (text = "" \/ startsWith text "U2F" = false ->
   isEncrypted text key w = (Ok false, w)) /\
  (text <> "" -> startsWith text "U2F" = true ->
   exists b,
     isEncrypted text key w = (Ok b, world_after (decryptText text key) w) /\
     (b = true <->
      exists decrypted,
        returns (decryptText text key) w = Some decrypted /\ decrypted <> text)) /\
  (forall e w',
     decryptText text key w = (Throw e, w') ->
     returns (isEncrypted text key) w = Some false).
Proof.
  split; [|split].
  - intros [E|E].
    + subst text. reflexivity.
    + apply isEncrypted_unmarked, E.
  - intros Hne Hprefix. unfold isEncrypted. rewrite Hprefix.
    apply falsy_false in Hne. rewrite Hne. simpl.
    unfold try_catch, bind, world_after, returns.
    destruct (decryptText text key w) as [[d|e] w'].
    + eexists. split; [reflexivity|]. simpl.
      rewrite negb_true_iff, String.eqb_neq. split.
      * intros Hdiff. exists d. auto.
      * intros (d' & Hd' & Hdiff). inversion Hd'. subst d'. exact Hdiff.
    + exists false. split; [reflexivity|]. split; [intros H; discriminate H|].
      intros (d & Hd & _). discriminate Hd.
  - intros e w' He. unfold returns, isEncrypted.
    destruct (falsy text || negb (startsWith text "U2F")); [reflexivity|].
    unfold try_catch, bind. rewrite He. reflexivity.
Qed.

(** Scenario C: a text without the marker is not taken for a ciphertext,
    whatever the key. *)
Example isEncrypted_plain_text (key : string) (w : World) :
  isEncrypted "plain text" key w = (Ok false, w).
Proof. reflexivity. Qed.

(** A text that draws no salt is judged by the key alone. *)
Lemma isEncrypted_no_salt (text key : string) (w w' : World) :
  no_salt_drawn text = true ->
  exists b, isEncrypted text key w = (Ok b, w) /\ isEncrypted text key w' = (Ok b, w').
Proof.
  unfold no_salt_drawn. intros H. rewrite !isEncrypted_unfold.
  destruct (falsy text || negb (startsWith text "U2F")) eqn:E.
  - exists false. split; reflexivity.
  - apply orb_false_iff in E as [_ E]. rewrite E in H. simpl in H.
    unfold next_salt, after_salt. rewrite H. eexists. split; reflexivity.
Qed.

Lemma decryptText_no_salt (text key : string) (w w' : World) :
  OpenSSL_salted text = true ->
  exists r, decryptText text key w = (r, w) /\ decryptText text key w' = (r, w').
Proof.
  intros H. rewrite !decryptText_unfold. unfold next_salt, after_salt.
  rewrite H. eexists. split; reflexivity.
Qed.

Context {L : CryptoJS_laws C}.

Lemma decrypted_under_AES_encrypt (text key : string) (salt : list byte) (c : string) :
  AES_encrypt text key salt = Ok c -> text <> "" ->
  decrypted_under None c key = Ok text.
Proof.
  intros Hc Hne. destruct (AES_decrypt_encrypt _ _ _ _ Hc) as (bytes & Hb & Hu).
  unfold decrypted_under. rewrite Hb, Hu.
  apply falsy_false in Hne. rewrite Hne. reflexivity.
Qed.

(** The envelope of a text that is not empty decrypts to the text, in
    every world, and no salt is drawn for it. *)
Lemma decryptText_AES_encrypt (text key : string) (salt : list byte) (c : string)
    (w : World) :
  AES_encrypt text key salt = Ok c -> text <> "" ->
  decryptText c key w = (Ok text, w).
Proof.
  intros Hc Hne. rewrite decryptText_unfold. unfold next_salt, after_salt.
  rewrite (AES_encrypt_enveloped _ _ _ _ Hc).
  rewrite (decrypted_under_AES_encrypt _ _ _ _ Hc Hne). reflexivity.
Qed.

Lemma decryptText_AES_encrypt_empty (key : string) (salt : list byte) (c : string)
    (w : World) :
  AES_encrypt "" key salt = Ok c ->
  decryptText c key w =
    (Throw (Error "Decryption failed or resulted in empty string"), w).
Proof.
  intros Hc. destruct (AES_decrypt_encrypt _ _ _ _ Hc) as (bytes & Hb & Hu).
  rewrite decryptText_unfold. unfold next_salt, after_salt.
  rewrite (AES_encrypt_enveloped _ _ _ _ Hc).
  unfold decrypted_under. rewrite Hb, Hu. reflexivity.
Qed.

Lemma AES_encrypt_Ok (text key : string) (salt : list byte) :
  Utf8_ok text = true -> Utf8_ok key = true ->
  exists c, AES_encrypt text key salt = Ok c.
Proof.
  intros Ht Hk. pose proof (AES_encrypt_defined text key salt) as H.
  rewrite Ht, Hk in H. destruct (AES_encrypt text key salt) as [c|e].
  - exists c. reflexivity.
  - discriminate H.
Qed.

Lemma AES_encrypt_Throw (text key : string) (salt : list byte) :
  Utf8_ok text && Utf8_ok key = false ->
  exists e, AES_encrypt text key salt = Throw e.
Proof.
  intros Hf. pose proof (AES_encrypt_defined text key salt) as H.
  rewrite Hf in H. destruct (AES_encrypt text key salt) as [c|e].
  - discriminate H.
  - exists e. reflexivity.
Qed.

(** C1, as the code has it.  For a plain text that is not empty, and a
    text and a key the library can encode, [encryptText] returns a
    ciphertext, and [decryptText] gives the plain text back from it
    whenever it is called, without drawing from the random source. *)
Theorem decryptText_encryptText (p k : string) (w : World) :
  p <> "" -> Utf8_ok p = true -> Utf8_ok k = true ->
  exists c w',
    encryptText p k w = (Ok c, w') /\
    forall w'', decryptText c k w'' = (Ok p, w'').
Proof.
  intros Hne Hp Hk. rewrite encryptText_unfold.
  destruct (AES_encrypt_Ok p k (map (entropy w) (seq (drawn w) 8)) Hp Hk)
    as [c Hc].
  rewrite Hc. exists c, (set_drawn (drawn w + 8) w).
  split; [reflexivity|]. intros w''. eapply decryptText_AES_encrypt; eauto.
Qed.

(** The empty plain text does not come back: whatever [encryptText]
    returns for it, [decryptText] throws on. *)
Lemma decryptText_encryptText_empty (k c : string) (w w' w'' : World) :
  encryptText "" k w = (Ok c, w') ->
  decryptText c k w'' =
    (Throw (Error "Decryption failed or resulted in empty string"), w'').
Proof.
  rewrite encryptText_unfold. intros H.
  destruct (AES_encrypt "" k (map (entropy w) (seq (drawn w) 8))) as [c'|e] eqn:Hc;
    inversion H; subst.
  eapply decryptText_AES_encrypt_empty; eauto.
Qed.

(** A text the library cannot encode is not encrypted at all. *)
Lemma encryptText_not_encodable (p k : string) (w : World) :
  Utf8_ok p = false ->
  encryptText p k w = (Throw (Error "加密失败"), set_drawn (drawn w + 8) w).
Proof.
  intros Hp. rewrite encryptText_unfold.
  destruct (AES_encrypt_Throw p k (map (entropy w) (seq (drawn w) 8))) as [e He].
  - rewrite Hp. reflexivity.
  - rewrite He. reflexivity.
Qed.

(** The ciphertext of a text that is not empty is detected, in every
    world. *)
Lemma isEncrypted_AES_encrypt (text key : string) (salt : list byte) (c : string)
    (w : World) :
  AES_encrypt text key salt = Ok c -> text <> "" ->
  isEncrypted c key w = (Ok true, w).
Proof.
  intros Hc Hne. rewrite isEncrypted_unfold.
  pose proof (startsWith_U2F c (AES_encrypt_salted _ _ _ _ Hc)) as Hprefix.
  pose proof (startsWith_nonempty c Hprefix) as Hc0.
  apply falsy_false in Hc0. rewrite Hc0, Hprefix. simpl.
  unfold next_salt, after_salt. rewrite (AES_encrypt_enveloped _ _ _ _ Hc).
  rewrite (decrypted_under_AES_encrypt _ _ _ _ Hc Hne). simpl.
  assert (text <> c) as Hdiff.
  { apply length_neq. pose proof (AES_encrypt_longer _ _ _ _ Hc). lia. }
  apply String.eqb_neq in Hdiff. rewrite Hdiff. reflexivity.
Qed.

(** The ciphertext of the empty text is not. *)
Lemma isEncrypted_AES_encrypt_empty (key : string) (salt : list byte) (c : string)
    (w : World) :
  AES_encrypt "" key salt = Ok c -> isEncrypted c key w = (Ok false, w).
Proof.
  intros Hc. rewrite isEncrypted_unfold.
  pose proof (startsWith_U2F c (AES_encrypt_salted _ _ _ _ Hc)) as Hprefix.
  pose proof (startsWith_nonempty c Hprefix) as Hc0.
  apply falsy_false in Hc0. rewrite Hc0, Hprefix. simpl.
  unfold next_salt, after_salt. rewrite (AES_encrypt_enveloped _ _ _ _ Hc).
  destruct (AES_decrypt_encrypt _ _ _ _ Hc) as (bytes & Hb & Hu).
  unfold decrypted_under. rewrite Hb, Hu. reflexivity.
Qed.

(** Whether encryption throws does not depend on the salt. *)
Lemma AES_encrypt_Throw_salt (text key : string) (salt salt' : list byte) (e : exn) :
  AES_encrypt text key salt = Throw e ->
  exists e', AES_encrypt text key salt' = Throw e'.
Proof.
  intros He. apply AES_encrypt_Throw.
  rewrite <- (AES_encrypt_defined text key salt), He. reflexivity.
Qed.

End Cipher.

(** ** The reference implementation meets the laws *)

Module ReferenceFacts.
Import Reference.

Lemma strip_prefix_app (p s : string) : strip_prefix p (p ++ s) = Some s.
Proof.
  induction p as [|a p IH]; simpl; [reflexivity|].
  rewrite Ascii.eqb_refl. exact IH.
Qed.

Lemma append_assoc (a b c : string) : ((a ++ b) ++ c = a ++ (b ++ c))%string.
Proof.
  induction a as [|x a IH]; [reflexivity | exact (f_equal (String x) IH)].
Qed.

Lemma length_append (a b : string) :
  String.length (a ++ b) = String.length a + String.length b.
Proof.
  induction a as [|x a IH]; [reflexivity | exact (f_equal S IH)].
Qed.

Lemma prefix_append (p s : string) : String.prefix p (p ++ s) = true.
Proof.
  induction p as [|a p IH]; simpl.
  - destruct s; reflexivity.
  - destruct (ascii_dec a a); [exact IH | congruence].
Qed.

Lemma hex_digits_no_bar (b : byte) :
  Ascii.eqb (hex_digit (Byte.to_N b / 16)) "|" = false /\
  Ascii.eqb (hex_digit (Byte.to_N b mod 16)) "|" = false.
Proof. destruct b; split; reflexivity. Qed.

Lemma after_bar_enc_Hex (salt : list byte) (rest : string) :
  after_bar (enc_Hex salt ++ String "|" rest) = rest.
Proof.
  induction salt as [|b salt IH]; simpl.
  - reflexivity.
  - destruct (hex_digits_no_bar b) as [H1 H2]. rewrite H1, H2. exact IH.
Qed.

Lemma stringify_bytes (text : string) :
  encodable text = true -> stringify (list_byte_of_string text) = Ok text.
Proof.
  unfold encodable, stringify. intros H. rewrite H.
  rewrite string_of_list_byte_of_string. reflexivity.
Qed.

Lemma encrypt_Ok (text key : string) (salt : list byte) (c : string) :
  encrypt text key salt = Ok c ->
  encodable text = true /\
  c = ("U2FsdGVkX1" ++ enc_Hex salt ++ "|" ++ key ++ "|" ++ text)%string.
Proof.
  unfold encrypt. destruct (encodable text); simpl; [|intros H; discriminate H].
  destruct (encodable key); intros H; inversion H. split; reflexivity.
Qed.

Lemma list_byte_of_string_append (a b : string) :
  list_byte_of_string (a ++ b) = list_byte_of_string a ++ list_byte_of_string b.
Proof.
  induction a as [|x a IH]; [reflexivity|].
  change (list_byte_of_string (String x a ++ b))
    with (byte_of_ascii x :: list_byte_of_string (a ++ b)).
  rewrite IH. reflexivity.
Qed.

Lemma encodable_append (a b : string) :
  encodable (a ++ b) = encodable a && encodable b.
Proof.
  unfold encodable, encodable_bytes.
  rewrite list_byte_of_string_append. apply forallb_app.
Qed.

Lemma hex_digits_encodable (b : byte) (rest : string) :
  encodable
    (String (hex_digit (Byte.to_N b / 16))
       (String (hex_digit (Byte.to_N b mod 16)) rest)) = encodable rest.
Proof. destruct b; reflexivity. Qed.

Lemma encodable_enc_Hex (salt : list byte) : encodable (enc_Hex salt) = true.
Proof.
  induction salt as [|b salt IH]; [reflexivity|].
  simpl enc_Hex. rewrite hex_digits_encodable. exact IH.
Qed.

Lemma encrypt_Ok_key (text key : string) (salt : list byte) (c : string) :
  encrypt text key salt = Ok c -> encodable key = true.
Proof.
  unfold encrypt. destruct (encodable text); simpl; [|intros H; discriminate H].
  destruct (encodable key); [reflexivity | intros H; discriminate H].
Qed.

Lemma laws : CryptoJS_laws cryptojs.
Proof.
  split; simpl.
  - intros text key salt. unfold encrypt.
    destruct (encodable text && encodable key); reflexivity.
  - intros text key salt c Hc. apply encrypt_Ok in Hc as [Henc ->].
    exists (list_byte_of_string text). split; [|apply stringify_bytes, Henc].
    unfold decrypt. rewrite strip_prefix_app.
    change ("|" ++ key ++ "|" ++ text)%string
      with (String "|" (key ++ "|" ++ text)).
    rewrite after_bar_enc_Hex. rewrite <- append_assoc, strip_prefix_app. reflexivity.
  - intros text key salt c Hc. apply encrypt_Ok in Hc as [_ ->].
    apply prefix_append.
  - intros text key salt c Hc. apply encrypt_Ok in Hc as [_ ->].
    apply prefix_append.
  - intros text key salt c Hc. apply encrypt_Ok in Hc as [_ ->].
    rewrite !length_append. simpl. lia.
  - intros text key salt c Hc. pose proof (encrypt_Ok_key _ _ _ _ Hc) as Hk.
    apply encrypt_Ok in Hc as [Ht ->].
    rewrite !encodable_append, encodable_enc_Hex, Hk, Ht. reflexivity.
Qed.

End ReferenceFacts.

(** ** The gateway *)

Section Gateway.
Context {C : CryptoJS}.

(** [try_catch] with a handler that returns never throws. *)
Lemma try_catch_ret {A} (body : M A) (a : A) (w : World) :
  try_catch body (fun _ => ret a) w =
    match body w with
    | (Ok r, w') => (Ok r, w')
    | (Throw _, w') => (Ok a, w')
    end.
Proof. unfold try_catch, ret. destruct (body w) as [[r|e] w']; reflexivity. Qed.

(** The first thing each gateway function does is to get the key: it runs
    from the world that leaves. *)
Lemma encryptPrompt_from_key (prompt : Prompt) (w w1 : World) (k : string) :
  generateLocalEncryptionKey w = (Ok k, w1) ->
  encryptPrompt prompt w = encryptPrompt prompt w1.
Proof.
  intros Hk. pose proof (generateLocalEncryptionKey_again _ _ _ Hk) as Hk1.
  unfold encryptPrompt, try_catch, encryptPrompt_try, bind.
  rewrite Hk, Hk1. reflexivity.
Qed.

Lemma decryptPrompt_from_key (prompt : Prompt) (w w1 : World) (k : string) :
  generateLocalEncryptionKey w = (Ok k, w1) ->
  decryptPrompt prompt w = decryptPrompt prompt w1.
Proof.
  intros Hk. pose proof (generateLocalEncryptionKey_again _ _ _ Hk) as Hk1.
  unfold decryptPrompt, try_catch, decryptPrompt_try, bind.
  rewrite Hk, Hk1. reflexivity.
Qed.

Lemma decryptPromptOnDemand_from_key (prompt : Prompt) (w w1 : World) (k : string) :
  generateLocalEncryptionKey w = (Ok k, w1) ->
  decryptPromptOnDemand prompt w = decryptPromptOnDemand prompt w1.
Proof.
  intros Hk. pose proof (generateLocalEncryptionKey_again _ _ _ Hk) as Hk1.
  unfold decryptPromptOnDemand, try_catch, decryptPromptOnDemand_try, bind.
  rewrite Hk, Hk1. reflexivity.
Qed.

(** The body of the [try] block of [decryptPrompt], with the key [k] in
    the slot. *)
Lemma decryptPrompt_try_active (prompt : Prompt) (w : World) (k : string) :
  active_key k w ->
  decryptPrompt_try prompt w =
    match isEncrypted (content prompt) k w with
    | (Ok true, w1) =>
        match decryptText (content prompt) k w1 with
        | (Ok d, w2) => (Ok (with_content prompt d), w2)
        | (Throw e, w2) => (Throw e, w2)
        end
    | (Ok false, w1) => (Ok prompt, w1)
    | (Throw e, w1) => (Throw e, w1)
    end.
Proof.
  intros Hk. unfold decryptPrompt_try, bind.
  rewrite (generateLocalEncryptionKey_active w k Hk).
  destruct (isEncrypted (content prompt) k w) as [[[|]|e] w1]; try reflexivity.
  all: simpl; destruct (decryptText (content prompt) k w1) as [[d|e] w2]; reflexivity.
Qed.

(** [encryptPrompt] with the key [k] in the slot. *)
Lemma encryptPrompt_active (prompt : Prompt) (w : World) (k : string) :
  active_key k w ->
  encryptPrompt prompt w =
    match isEncrypted (content prompt) k w with
    | (Ok true, w1) => (Ok prompt, w1)
    | (Ok false, w1) =>
        (match AES_encrypt (content prompt) k (map (entropy w1) (seq (drawn w1) 8)) with
         | Ok c => Ok (with_content prompt c)
         | Throw _ => Ok prompt
         end,
         set_drawn (drawn w1 + 8) w1)
    | (Throw _, w1) => (Ok prompt, w1)
    end.
Proof.
  intros Hk. unfold encryptPrompt. rewrite try_catch_ret.
  unfold encryptPrompt_try, bind.
  rewrite (generateLocalEncryptionKey_active w k Hk).
  destruct (isEncrypted (content prompt) k w) as [[[|]|e] w1]; try reflexivity.
  all: rewrite encryptText_unfold;
    destruct (AES_encrypt (content prompt) k (map (entropy w1) (seq (drawn w1) 8)));
    reflexivity.
Qed.

(** [decryptPrompt] with the key [k] in the slot. *)
Lemma decryptPrompt_active (prompt : Prompt) (w : World) (k : string) :
  active_key k w ->
  decryptPrompt prompt w =
    match isEncrypted (content prompt) k w with
    | (Ok true, w1) =>
        match decryptText (content prompt) k w1 with
        | (Ok d, w2) => (Ok (with_content prompt d), w2)
        | (Throw _, w2) => (Ok prompt, w2)
        end
    | (_, w1) => (Ok prompt, w1)
    end.
Proof.
  intros Hk. unfold decryptPrompt. rewrite try_catch_ret.
  rewrite (decryptPrompt_try_active prompt w k Hk).
  destruct (isEncrypted (content prompt) k w) as [[[|]|e] w1]; try reflexivity.
  all: destruct (decryptText (content prompt) k w1) as [[d|e] w2]; reflexivity.
Qed.

(** [decryptPromptOnDemand] with the key [k] in the slot. *)
Lemma decryptPromptOnDemand_active (prompt : Prompt) (w : World) (k : string) :
  active_key k w ->
  decryptPromptOnDemand prompt w =
    match isEncrypted (content prompt) k w with
    | (Ok true, w1) =>
        match decryptText (content prompt) k w1 with
        | (Ok d, w2) => (Ok d, w2)
        | (Throw _, w2) => (Ok (content prompt), w2)
        end
    | (_, w1) => (Ok (content prompt), w1)
    end.
Proof.
  intros Hk. unfold decryptPromptOnDemand. rewrite try_catch_ret.
  unfold decryptPromptOnDemand_try, bind.
  rewrite (generateLocalEncryptionKey_active w k Hk).
  destruct (isEncrypted (content prompt) k w) as [[[|]|e] w1]; try reflexivity.
  all: simpl; destruct (decryptText (content prompt) k w1) as [[d|e] w2]; reflexivity.
Qed.

Lemma with_content_same (prompt : Prompt) :
  with_content prompt (content prompt) = prompt.
Proof. destruct prompt; reflexivity. Qed.

(** With a key in the slot, the gateway functions return, change the
    content of the record at most, and only draw from the random
    source. *)
Lemma encryptPrompt_active_run (prompt : Prompt) (w : World) (k : string) :
  active_key k w ->
  exists r w',
    encryptPrompt prompt w = (Ok r, w') /\ drew w w' /\
    r = with_content prompt (content r).
Proof.
  intros Hk. rewrite (encryptPrompt_active prompt w k Hk).
  destruct (isEncrypted_returns (content prompt) k w) as (b & w1 & Hi & Hd).
  rewrite Hi. destruct b.
  - exists prompt, w1. split; [reflexivity|]. split; [exact Hd|].
    symmetry. apply with_content_same.
  - destruct (AES_encrypt _ _ _); eexists _, _; (split; [reflexivity|]);
      (split; [eapply drew_trans; [exact Hd | apply drew_set_drawn]|]).
    + reflexivity.
    + symmetry. apply with_content_same.
Qed.

Lemma decryptPrompt_active_run (prompt : Prompt) (w : World) (k : string) :
  active_key k w ->
  exists r w',
    decryptPrompt prompt w = (Ok r, w') /\ drew w w' /\
    r = with_content prompt (content r).
Proof.
  intros Hk. rewrite (decryptPrompt_active prompt w k Hk).
  destruct (isEncrypted_returns (content prompt) k w) as (b & w1 & Hi & Hd).
  rewrite Hi. destruct b.
  - rewrite decryptText_unfold.
    destruct (decrypted_under _ _ _) as [d|e]; eexists _, _;
      (split; [reflexivity|]);
      (split; [eapply drew_trans; [exact Hd | apply after_salt_drew]|]).
    + reflexivity.
    + symmetry. apply with_content_same.
  - exists prompt, w1. split; [reflexivity|]. split; [exact Hd|].
    symmetry. apply with_content_same.
Qed.

(** From any world: the key is made first, if there is none, and the
    rest is drawing from the random source. *)
Lemma encryptPrompt_run (prompt : Prompt) (w : World) :
  exists k w1 r w',
    generateLocalEncryptionKey w = (Ok k, w1) /\ active_key k w1 /\
    encryptPrompt prompt w = (Ok r, w') /\ drew w1 w' /\
    r = with_content prompt (content r).
Proof.
  destruct (generateLocalEncryptionKey_total w) as (k & w1 & Hk & Hne & Hs).
  assert (Ha : active_key k w1) by (split; assumption).
  destruct (encryptPrompt_active_run prompt w1 k Ha) as (r & w' & Hr & Hd & Hf).
  exists k, w1, r, w'. rewrite (encryptPrompt_from_key prompt w w1 k Hk). auto.
Qed.

Lemma decryptPrompt_run (prompt : Prompt) (w : World) :
  exists k w1 r w',
    generateLocalEncryptionKey w = (Ok k, w1) /\ active_key k w1 /\
    decryptPrompt prompt w = (Ok r, w') /\ drew w1 w' /\
    r = with_content prompt (content r).
Proof.
  destruct (generateLocalEncryptionKey_total w) as (k & w1 & Hk & Hne & Hs).
  assert (Ha : active_key k w1) by (split; assumption).
  destruct (decryptPrompt_active_run prompt w1 k Ha) as (r & w' & Hr & Hd & Hf).
  exists k, w1, r, w'. rewrite (decryptPrompt_from_key prompt w w1 k Hk). auto.
Qed.

(** The three gateway functions always return. *)
Lemma encryptPrompt_returns (prompt : Prompt) (w : World) :
  exists r w', encryptPrompt prompt w = (Ok r, w').
Proof.
  unfold encryptPrompt. rewrite try_catch_ret.
  destruct (encryptPrompt_try prompt w) as [[r|e] w']; eauto.
Qed.

Lemma decryptPrompt_returns (prompt : Prompt) (w : World) :
  exists r w', decryptPrompt prompt w = (Ok r, w').
Proof.
  unfold decryptPrompt. rewrite try_catch_ret.
  destruct (decryptPrompt_try prompt w) as [[r|e] w']; eauto.
Qed.

Lemma decryptPromptOnDemand_returns (prompt : Prompt) (w : World) :
  exists r w', decryptPromptOnDemand prompt w = (Ok r, w').
Proof.
  unfold decryptPromptOnDemand. rewrite try_catch_ret.
  destruct (decryptPromptOnDemand_try prompt w) as [[r|e] w']; eauto.
Qed.

(** [encryptPrompt] and [decryptPrompt] change the content of a record at
    most. *)
Lemma encryptPrompt_fields (prompt r : Prompt) (w w' : World) :
  encryptPrompt prompt w = (Ok r, w') -> r = with_content prompt (content r).
Proof.
  destruct (encryptPrompt_run prompt w) as (k & w1 & r' & w'' & _ & _ & Hr & _ & Hf).
  rewrite Hr. intros H. inversion H. subst. exact Hf.
Qed.

Lemma decryptPrompt_fields (prompt r : Prompt) (w w' : World) :
  decryptPrompt prompt w = (Ok r, w') -> r = with_content prompt (content r).
Proof.
  destruct (decryptPrompt_run prompt w) as (k & w1 & r' & w'' & _ & _ & Hr & _ & Hf).
  rewrite Hr. intros H. inversion H. subst. exact Hf.
Qed.

(** The gateway does not touch the database, nor the clock. *)
Lemma encryptPrompt_frame (prompt r : Prompt) (w w' : World) :
  encryptPrompt prompt w = (Ok r, w') ->
  db_prompts w' = db_prompts w /\
  db_selections w' = db_selections w /\
  clock_reads w' = clock_reads w /\ wallclock w' = wallclock w.
Proof.
  destruct (encryptPrompt_run prompt w) as (k & w1 & r' & w'' & Hk & _ & Hr & Hd & _).
  rewrite Hr. intros H. inversion H. subst.
  destruct (generateLocalEncryptionKey_frame _ _ _ Hk) as (Hp & Hs & Hc & Hw & _).
  destruct (drew_frame _ _ Hd) as (_ & Hp' & Hs' & Hc' & Hw' & _).
  repeat split; congruence.
Qed.

Lemma decryptPrompt_frame (prompt r : Prompt) (w w' : World) :
  decryptPrompt prompt w = (Ok r, w') ->
  db_prompts w' = db_prompts w /\
  db_selections w' = db_selections w /\
  clock_reads w' = clock_reads w /\ wallclock w' = wallclock w.
Proof.
  destruct (decryptPrompt_run prompt w) as (k & w1 & r' & w'' & Hk & _ & Hr & Hd & _).
  rewrite Hr. intros H. inversion H. subst.
  destruct (generateLocalEncryptionKey_frame _ _ _ Hk) as (Hp & Hs & Hc & Hw & _).
  destruct (drew_frame _ _ Hd) as (_ & Hp' & Hs' & Hc' & Hw' & _).
  repeat split; congruence.
Qed.

(** C4. The gateway keeps crypto failures to itself.  [encryptPrompt] and
    [decryptPrompt] always return a record, and when the body of their
    [try] block throws, the record is the one they were given;
    [decryptPromptOnDemand] always returns a string, and when the body of
    its [try] block throws, or when [decryptText] throws on the content
    under the active key, the string is the stored content. *)
Theorem gateway_contains_failures (prompt : Prompt) (w : World) :
  (exists r w', encryptPrompt prompt w = (Ok r, w') /\
     forall e w'', encryptPrompt_try prompt w = (Throw e, w'') ->
       r = prompt /\ w' = w'') /\
  (exists r w', decryptPrompt prompt w = (Ok r, w') /\
     forall e w'', decryptPrompt_try prompt w = (Throw e, w'') ->
       r = prompt /\ w' = w'') /\
  (exists s w', decryptPromptOnDemand prompt w = (Ok s, w') /\
     (forall e w'', decryptPromptOnDemand_try prompt w = (Throw e, w'') ->
        s = content prompt /\ w' = w'') /\
     (forall k w1 e w2,
        generateLocalEncryptionKey w = (Ok k, w1) ->
        decryptText (content prompt) k w1 = (Throw e, w2) ->
        s = content prompt)).
Proof.
  split; [|split].
  - unfold encryptPrompt. rewrite try_catch_ret.
    destruct (encryptPrompt_try prompt w) as [[r|e] w'].
    + exists r, w'. split; [reflexivity|]. intros e w'' H. discriminate H.
    + exists prompt, w'. split; [reflexivity|].
      intros e' w'' H. inversion H. auto.
  - unfold decryptPrompt. rewrite try_catch_ret.
    destruct (decryptPrompt_try prompt w) as [[r|e] w'].
    + exists r, w'. split; [reflexivity|]. intros e w'' H. discriminate H.
    + exists prompt, w'. split; [reflexivity|].
      intros e' w'' H. inversion H. auto.
  - destruct (decryptPromptOnDemand_returns prompt w) as (s & w' & Hrun).
    exists s, w'. split; [exact Hrun|]. split.
    + intros e w'' H. unfold decryptPromptOnDemand in Hrun.
      rewrite try_catch_ret, H in Hrun. inversion Hrun. auto.
    + intros k w1 e w2 Hk Hthrow.
      pose proof (generateLocalEncryptionKey_again _ _ _ Hk) as Hk1.
      unfold decryptPromptOnDemand in Hrun. rewrite try_catch_ret in Hrun.
      unfold decryptPromptOnDemand_try, bind in Hrun. rewrite Hk in Hrun.
      unfold isEncrypted in Hrun.
      destruct (falsy (content prompt) || negb (startsWith (content prompt) "U2F")).
      * simpl in Hrun. inversion Hrun. reflexivity.
      * unfold try_catch, bind in Hrun. rewrite Hthrow in Hrun.
        simpl in Hrun. inversion Hrun. reflexivity.
Qed.

(** ** [decryptPrompts] *)

(** The records [decryptPrompts] returns, one call of [decryptPrompt] after
    the other. *)
Lemma decryptPrompts_loop_app (prompts done : list Prompt) (w : World) :
  exists rs w',
    decryptPrompts_loop prompts [] w = (Ok rs, w') /\
    decryptPrompts_loop prompts done w = (Ok (done ++ rs), w').
Proof.
  revert done w. induction prompts as [|p ps IH]; intros done w.
  - exists [], w. simpl. unfold ret. rewrite app_nil_r. auto.
  - cbn [decryptPrompts_loop]. unfold bind.
    destruct (decryptPrompt_returns p w) as (r & w1 & Hr). rewrite Hr.
    change ([] ++ [r]) with [r].
    destruct (IH [r] w1) as (rs & w' & H0 & H1).
    destruct (IH (done ++ [r]) w1) as (rs' & w'' & H0' & H2).
    rewrite H0 in H0'. inversion H0'. subst rs' w''.
    simpl in H1. exists (r :: rs), w'. rewrite H1, H2, <- app_assoc. auto.
Qed.

Lemma decryptPrompts_nil (w : World) : decryptPrompts [] w = (Ok [], w).
Proof. reflexivity. Qed.

Lemma decryptPrompts_cons (p : Prompt) (ps : list Prompt) (w : World) :
  exists r w1 rs w',
    decryptPrompt p w = (Ok r, w1) /\ decryptPrompts ps w1 = (Ok rs, w') /\
    decryptPrompts (p :: ps) w = (Ok (r :: rs), w').
Proof.
  destruct (decryptPrompt_returns p w) as (r & w1 & Hr).
  destruct (decryptPrompts_loop_app ps [r] w1) as (rs & w' & H0 & H1).
  exists r, w1, rs, w'. split; [exact Hr|]. split; [exact H0|].
  unfold decryptPrompts. cbn [decryptPrompts_loop]. unfold bind.
  rewrite Hr. simpl. exact H1.
Qed.

(** [decryptPrompts] always returns. *)
Lemma decryptPrompts_returns (prompts : list Prompt) (w : World) :
  exists rs w', decryptPrompts prompts w = (Ok rs, w').
Proof.
  destruct (decryptPrompts_loop_app prompts [] w) as (rs & w' & H & _). eauto.
Qed.

Lemma decryptPrompts_cons_eq (p r : Prompt) (ps rs : list Prompt) (w w1 w' : World) :
  decryptPrompt p w = (Ok r, w1) -> decryptPrompts ps w1 = (Ok rs, w') ->
  decryptPrompts (p :: ps) w = (Ok (r :: rs), w').
Proof.
  intros Hp Hps.
  destruct (decryptPrompts_cons p ps w) as (r' & w1' & rs' & w'' & Hp' & Hps' & H).
  rewrite Hp in Hp'. inversion Hp'. subst r' w1'.
  rewrite Hps in Hps'. inversion Hps'. subst rs' w''. exact H.
Qed.

(** The run of [decryptPrompts] around the record at place [i]. *)
Lemma decryptPrompts_split (prompts rs : list Prompt) (w w' : World) (i : nat) (p : Prompt) :
  decryptPrompts prompts w = (Ok rs, w') -> prompts !! i = Some p ->
  exists r wi wi',
    decryptPrompts (take i prompts) w = (Ok (take i rs), wi) /\
    decryptPrompt p wi = (Ok r, wi') /\
    decryptPrompts (take (S i) prompts) w = (Ok (take (S i) rs), wi') /\
    rs !! i = Some r.
Proof.
  revert rs w i. induction prompts as [|p0 ps IH]; intros rs w i Hrun Hi.
  - discriminate Hi.
  - destruct (decryptPrompts_cons p0 ps w) as (r0 & w1 & rs' & w'' & Hp0 & Hps & H).
    rewrite H in Hrun. inversion Hrun. subst rs w''. destruct i as [|j].
    + inversion Hi. subst p0. exists r0, w, w1.
      split; [reflexivity|]. split; [exact Hp0|]. split; [|reflexivity].
      rewrite !firstn_cons, !take_0.
      eapply decryptPrompts_cons_eq; [exact Hp0 | reflexivity].
    + destruct (IH rs' w1 j Hps Hi) as (r & wj & wj' & H1 & Hp & H2 & Hr).
      exists r, wj, wj'. rewrite !firstn_cons.
      split; [eapply decryptPrompts_cons_eq; eauto|].
      split; [exact Hp|].
      split; [eapply decryptPrompts_cons_eq; eauto | exact Hr].
Qed.

(** With a key in the slot [decryptPrompts] only draws from the random
    source, and it changes contents only. *)
Lemma decryptPrompts_active_run (prompts : list Prompt) (w : World) (k : string) :
  active_key k w ->
  exists rs w',
    decryptPrompts prompts w = (Ok rs, w') /\ drew w w' /\
    Forall2 (fun p r => r = with_content p (content r)) prompts rs.
Proof.
  revert w. induction prompts as [|p ps IH]; intros w Hk.
  - exists [], w. split; [reflexivity|]. split; [apply drew_refl | constructor].
  - destruct (decryptPrompts_cons p ps w) as (r & w1 & rs & w' & Hp & Hps & Hall).
    destruct (decryptPrompt_active_run p w k Hk) as (r' & w1' & Hp' & Hd & Hf).
    rewrite Hp in Hp'. inversion Hp'. subst r' w1'.
    destruct (IH w1 (active_key_drew _ _ _ Hk Hd)) as (rs' & w'' & Hps' & Hd' & Hfs).
    rewrite Hps in Hps'. inversion Hps'. subst rs' w''.
    exists (r :: rs), w'. split; [exact Hall|].
    split; [eapply drew_trans; eauto | constructor; assumption].
Qed.

(** [decryptPrompts] changes contents only. *)
Lemma decryptPrompts_fields (prompts rs : list Prompt) (w w' : World) :
  decryptPrompts prompts w = (Ok rs, w') ->
  Forall2 (fun p r => r = with_content p (content r)) prompts rs.
Proof.
  revert rs w. induction prompts as [|p ps IH]; intros rs w H.
  - inversion H. constructor.
  - destruct (decryptPrompts_cons p ps w) as (r & w1 & rs' & w'' & Hp & Hps & Hall).
    rewrite Hall in H. inversion H. subst rs w''.
    constructor; [eapply decryptPrompt_fields; eauto | eapply IH; eauto].
Qed.

(** [decryptPrompts] does not touch the database. *)
Lemma decryptPrompts_frame (prompts rs : list Prompt) (w w' : World) :
  decryptPrompts prompts w = (Ok rs, w') ->
  db_prompts w' = db_prompts w /\ db_selections w' = db_selections w.
Proof.
  revert rs w. induction prompts as [|p ps IH]; intros rs w H.
  - inversion H. auto.
  - destruct (decryptPrompts_cons p ps w) as (r & w1 & rs' & w'' & Hp & Hps & Hall).
    rewrite Hall in H. inversion H. subst rs w''.
    destruct (decryptPrompt_frame _ _ _ _ Hp) as (Hp1 & Hs1 & _).
    destruct (IH _ _ Hps) as (Hp2 & Hs2). split; congruence.
Qed.

(** A record whose content draws no salt is decrypted to the same record
    wherever the key is the same. *)
Lemma decryptPrompt_no_salt (p : Prompt) (w w' : World) (k : string) :
  no_salt_drawn (content p) = true ->
  active_key k w -> active_key k w' ->
  exists r, decryptPrompt p w = (Ok r, w) /\ decryptPrompt p w' = (Ok r, w').
Proof.
  intros Hfixed Hk Hk'.
  rewrite (decryptPrompt_active p w k Hk), (decryptPrompt_active p w' k Hk').
  destruct (isEncrypted_no_salt (content p) k w w' Hfixed) as (b & Hb & Hb').
  rewrite Hb, Hb'. destruct b; [|exists p; auto].
  assert (Hsalted : OpenSSL_salted (content p) = true).
  { unfold no_salt_drawn in Hfixed.
    destruct (startsWith (content p) "U2F") eqn:Hprefix; [exact Hfixed|].
    rewrite (isEncrypted_unmarked _ _ _ Hprefix) in Hb. discriminate Hb. }
  destruct (decryptText_no_salt (content p) k w w' Hsalted) as (r & Hr & Hr').
  rewrite Hr, Hr'. destruct r; eexists; split; reflexivity.
Qed.

(** The world in which the record at place [i] is decrypted holds the key
    of the first call. *)
Lemma decryptPrompts_key (prompts rs : list Prompt) (w w1 w' : World) (k : string) :
  generateLocalEncryptionKey w = (Ok k, w1) ->
  decryptPrompts prompts w = (Ok rs, w') ->
  w' = w \/ active_key k w'.
Proof.
  intros Hk Hrun. destruct prompts as [|p ps].
  - inversion Hrun. auto.
  - right. destruct (decryptPrompts_cons p ps w) as (r & wa & rs' & wb & Hp & Hps & Hall).
    rewrite Hall in Hrun. inversion Hrun. subst rs wb.
    destruct (decryptPrompt_run p w) as (k' & w1' & r' & wa' & Hk' & Ha & Hp' & Hd & _).
    rewrite Hk in Hk'. inversion Hk'. subst k' w1'.
    rewrite Hp in Hp'. inversion Hp'. subst r' wa'.
    pose proof (active_key_drew _ _ _ Ha Hd) as Hka.
    destruct (decryptPrompts_active_run ps wa k Hka) as (rs'' & w'' & Hps' & Hd' & _).
    rewrite Hps in Hps'. inversion Hps'. subst rs'' w''.
    eapply active_key_drew; eauto.
Qed.

(** C7. [decryptPrompts] returns as many records as it was given, in the
    order given.  The record at place [i] is what [decryptPrompt] returns
    for the record at place [i] of the input, called in the world the
    calls for the records before it have left, and it leaves the world in
    which the next record is decrypted.  For a record whose content draws
    no salt, this is also what [decryptPrompt] returns for it in the world
    at the start. *)
Theorem decryptPrompts_maps_decryptPrompt (prompts : list Prompt) (w : World) :
  exists rs w',
    decryptPrompts prompts w = (Ok rs, w') /\
    length rs = length prompts /\
    (forall i p, prompts !! i = Some p ->
       exists r wi wi',
         decryptPrompts (take i prompts) w = (Ok (take i rs), wi) /\
         decryptPrompt p wi = (Ok r, wi') /\
         decryptPrompts (take (S i) prompts) w = (Ok (take (S i) rs), wi') /\
         rs !! i = Some r) /\
    (forall i p, prompts !! i = Some p ->
       no_salt_drawn (content p) = true ->
       exists r, rs !! i = Some r /\ returns (decryptPrompt p) w = Some r).
Proof.
  destruct (decryptPrompts_returns prompts w) as (rs & w' & Hrun).
  exists rs, w'. split; [exact Hrun|]. split; [|split].
  - symmetry. eapply Forall2_length, decryptPrompts_fields, Hrun.
  - intros i p Hi. eapply decryptPrompts_split; eauto.
  - intros i p Hi Hfixed.
    destruct (decryptPrompts_split _ _ _ _ _ _ Hrun Hi)
      as (r & wi & wi' & H1 & Hp & _ & Hr).
    exists r. split; [exact Hr|].
    destruct (generateLocalEncryptionKey_total w) as (k & w1 & Hk & Hne & Hs).
    assert (Ha : active_key k w1) by (split; assumption).
    unfold returns.
    destruct (decryptPrompts_key _ _ _ _ _ _ Hk H1) as [->|Hki].
    + rewrite Hp. reflexivity.
    + rewrite (decryptPrompt_from_key p w w1 k Hk).
      destruct (decryptPrompt_no_salt p wi w1 k Hfixed Hki Ha) as (r' & Hr1 & Hr2).
      rewrite Hr2. rewrite Hp in Hr1. inversion Hr1. reflexivity.
Qed.

End Gateway.

(** ** Idempotence of [encryptPrompt] *)

Section Idempotence.
Context {C : CryptoJS} {L : CryptoJS_laws C}.

(** C3, as the code has it.  For a record whose content is not empty and
    draws no salt (it does not start with the marker, or it is an envelope
    with its salt), a second [encryptPrompt] returns what the first
    returned.  A record whose content [isEncrypted] accepts under the
    active key in this call comes back as it is, and so does a record
    whose content is the ciphertext, under the active key, of a text that
    is not empty. *)
Theorem encryptPrompt_idempotent (prompt : Prompt) (w : World) :
  (content prompt <> "" -> no_salt_drawn (content prompt) = true ->
   exists once w1 w2,
     encryptPrompt prompt w = (Ok once, w1) /\
     encryptPrompt once w1 = (Ok once, w2)) /\
  (forall k w1 w2,
     generateLocalEncryptionKey w = (Ok k, w1) ->
     isEncrypted (content prompt) k w1 = (Ok true, w2) ->
     encryptPrompt prompt w = (Ok prompt, w2)) /\
  (forall k w1 text salt,
     generateLocalEncryptionKey w = (Ok k, w1) ->
     text <> "" -> AES_encrypt text k salt = Ok (content prompt) ->
     encryptPrompt prompt w = (Ok prompt, w1)).
Proof.
  assert (Hdetected : forall k w1 w2,
    generateLocalEncryptionKey w = (Ok k, w1) ->
    isEncrypted (content prompt) k w1 = (Ok true, w2) ->
    encryptPrompt prompt w = (Ok prompt, w2)).
  { intros k w1 w2 Hk Hi.
    destruct (generateLocalEncryptionKey_total w) as (k' & w1' & Hk' & Hne & Hs).
    rewrite Hk in Hk'. inversion Hk'. subst k' w1'.
    rewrite (encryptPrompt_from_key prompt w w1 k Hk).
    rewrite (encryptPrompt_active prompt w1 k (conj Hs Hne)), Hi. reflexivity. }
  split; [|split].
  - intros Hne Hfixed.
    destruct (generateLocalEncryptionKey_total w) as (k & w1 & Hk & Hkne & Hs).
    assert (Ha : active_key k w1) by (split; assumption).
    rewrite (encryptPrompt_from_key prompt w w1 k Hk).
    rewrite (encryptPrompt_active prompt w1 k Ha).
    assert (Ha8 : active_key k (set_drawn (drawn w1 + 8) w1))
      by (eapply active_key_drew; [exact Ha | apply drew_set_drawn]).
    destruct (isEncrypted_no_salt (content prompt) k w1
                (set_drawn (drawn w1 + 8) w1) Hfixed) as (b & Hb & Hb').
    rewrite Hb. destruct b.
    + exists prompt, w1, w1. split; [reflexivity|].
      rewrite (encryptPrompt_active prompt w1 k Ha), Hb. reflexivity.
    + destruct (AES_encrypt (content prompt) k (map (entropy w1) (seq (drawn w1) 8)))
        as [c|e] eqn:Hc.
      * eexists _, _, _. split; [reflexivity|].
        rewrite (encryptPrompt_active _ _ k Ha8). simpl content.
        rewrite (isEncrypted_AES_encrypt _ _ _ _ _ Hc Hne). reflexivity.
      * eexists _, _, _. split; [reflexivity|].
        rewrite (encryptPrompt_active _ _ k Ha8), Hb'.
        match goal with |- context [AES_encrypt ?t ?key ?s] =>
          destruct (AES_encrypt_Throw_salt _ _ _ s _ Hc) as [e' He'] end.
        rewrite He'. reflexivity.
  - exact Hdetected.
  - intros k w1 text salt Hk Hne Hc. apply (Hdetected k w1 w1 Hk).
    eapply isEncrypted_AES_encrypt; eauto.
Qed.

(** The empty content is wrapped again on every pass: when a first pass
    has encrypted the empty content, a second pass replaces the
    ciphertext by a longer one. *)
Lemma encryptPrompt_empty_wraps_again (prompt once : Prompt) (w w1 : World) :
  content prompt = "" ->
  encryptPrompt prompt w = (Ok once, w1) -> content once <> "" ->
  exists twice w2,
    encryptPrompt once w1 = (Ok twice, w2) /\
    String.length (content once) < String.length (content twice).
Proof.
  intros Hempty Hrun Hne.
  destruct (generateLocalEncryptionKey_total w) as (k & w0 & Hk & Hkne & Hs).
  assert (Ha : active_key k w0) by (split; assumption).
  rewrite (encryptPrompt_from_key prompt w w0 k Hk) in Hrun.
  rewrite (encryptPrompt_active prompt w0 k Ha), Hempty in Hrun.
  change (isEncrypted "" k w0) with (Ok false, w0) in Hrun. cbv iota in Hrun.
  destruct (AES_encrypt "" k (map (entropy w0) (seq (drawn w0) 8)))
    as [c|e] eqn:Hc; inversion Hrun; subst once w1; clear Hrun.
  2:{ congruence. }
  assert (Ha8 : active_key k (set_drawn (drawn w0 + 8) w0))
    by (eapply active_key_drew; [exact Ha | apply drew_set_drawn]).
  rewrite (encryptPrompt_active _ _ k Ha8). simpl content.
  rewrite (isEncrypted_AES_encrypt_empty _ _ _ _ Hc).
  pose proof (AES_encrypt_encodable _ _ _ _ Hc) as Henc.
  pose proof (AES_encrypt_defined "" k (map (entropy w0) (seq (drawn w0) 8))) as Hd.
  rewrite Hc in Hd. simpl in Hd. symmetry in Hd.
  apply andb_true_iff in Hd as [_ Hkey].
  match goal with |- context [AES_encrypt c k ?s] =>
    destruct (AES_encrypt_Ok c k s Henc Hkey) as [c' Hc'] end.
  rewrite Hc'. eexists _, _. split; [reflexivity|].
  simpl. eapply AES_encrypt_longer; eauto.
Qed.

End Idempotence.

(** ** The user prompt selection repository *)

Lemma selects_true (promptId userId : string) (sel : UserPromptSelection) :
  selects promptId userId sel = true <->
  sel_promptId sel = promptId /\ sel_userId sel = userId.
Proof.
  unfold selects. rewrite andb_true_iff, !String.eqb_eq. reflexivity.
Qed.

(** The records [getAll] lists are the records filed in the store. *)
Lemma In_getAll {A} (m : gmap string A) (a : A) :
  In a (map snd (map_to_list m)) <-> exists i, m !! i = Some a.
Proof.
  rewrite in_map_iff. split.
  - intros ([i a'] & <- & Hin). exists i.
    apply elem_of_map_to_list, list_elem_of_In, Hin.
  - intros [i Hi]. exists (i, a). split; [reflexivity|].
    apply list_elem_of_In, elem_of_map_to_list, Hi.
Qed.

Lemma existsb_selects (promptId userId : string) (m : gmap string UserPromptSelection) :
  existsb (selects promptId userId) (map snd (map_to_list m)) = true <->
  exists i s, m !! i = Some s /\ sel_promptId s = promptId /\ sel_userId s = userId.
Proof.
  rewrite existsb_exists. split.
  - intros (s & Hin & Hs). apply In_getAll in Hin as [i Hi].
    apply selects_true in Hs. eauto.
  - intros (i & s & Hi & Hp & Hu). exists s. split.
    + apply In_getAll. eauto.
    + apply selects_true. auto.
Qed.

(** Where [some] holds, [find] finds. *)
Lemma find_of_existsb {A} (f : A -> bool) (l : list A) :
  existsb f l = true -> exists a, find f l = Some a.
Proof.
  induction l as [|x l IH]; simpl; [discriminate|].
  destruct (f x); [eauto | exact IH].
Qed.

Lemma fresh_key_free {A} (m : gmap string A) : m !! fresh (dom m) = None.
Proof. apply not_elem_of_dom, is_fresh. Qed.

(** [addUserPromptSelection] when the pair is already selected. *)
Lemma addUserPromptSelection_existing (promptId : string) (userId : option string)
    (w : World) :
  (exists i s, db_selections w !! i = Some s /\
     sel_promptId s = promptId /\ sel_userId s = or_local_user userId) ->
  exists existing,
    addUserPromptSelection promptId userId w =
      (Ok existing, set_clock_reads (S (clock_reads w)) w) /\
    (exists i, db_selections w !! i = Some existing) /\
    sel_promptId existing = promptId /\
    sel_userId existing = or_local_user userId.
Proof.
  intros Hex. apply existsb_selects in Hex.
  destruct (find_of_existsb _ _ Hex) as [existing Hfind].
  exists existing. unfold addUserPromptSelection, bind, new_Date, dbOperations.getAll.
  simpl. rewrite Hex, Hfind. split; [reflexivity|].
  apply find_some in Hfind as [Hin Hs]. apply selects_true in Hs.
  apply In_getAll in Hin. tauto.
Qed.

(** [addUserPromptSelection] when the pair is not selected yet. *)
Lemma addUserPromptSelection_new (promptId : string) (userId : option string)
    (w : World) :
  ~ (exists i s, db_selections w !! i = Some s /\
       sel_promptId s = promptId /\ sel_userId s = or_local_user userId) ->
  let i := fresh (dom (db_selections w)) in
  let added :=
    mkSelection (Some i) (or_local_user userId) promptId (wallclock w (clock_reads w)) in
  addUserPromptSelection promptId userId w =
    (Ok added,
     set_db_selections (insert i added)
       (set_clock_reads (S (clock_reads w)) w)).
Proof.
  intros Hnot. rewrite <- existsb_selects in Hnot.
  apply not_true_is_false in Hnot.
  unfold addUserPromptSelection, bind, new_Date, dbOperations.getAll. simpl.
  rewrite Hnot. reflexivity.
Qed.

Lemma selections_unique_insert (m : gmap string UserPromptSelection)
    (i : string) (s : UserPromptSelection) :
  selections_unique m -> m !! i = None ->
  (forall j t, m !! j = Some t ->
     ~ (sel_promptId t = sel_promptId s /\ sel_userId t = sel_userId s)) ->
  selections_unique (<[i := s]> m).
Proof.
  intros Hu Hi Hnew a b x y Ha Hb Hp Hq.
  destruct (decide (a = i)) as [->|Hai], (decide (b = i)) as [->|Hbi];
    [reflexivity | | |].
  - rewrite lookup_insert_eq in Ha. rewrite lookup_insert_ne in Hb by congruence.
    inversion Ha. subst x. exfalso. apply (Hnew b y Hb). auto.
  - rewrite lookup_insert_eq in Hb. rewrite lookup_insert_ne in Ha by congruence.
    inversion Hb. subst y. exfalso. apply (Hnew a x Ha). auto.
  - rewrite lookup_insert_ne in Ha by congruence.
    rewrite lookup_insert_ne in Hb by congruence. eapply Hu; eauto.
Qed.

Lemma selections_unique_delete (m : gmap string UserPromptSelection) (i : string) :
  selections_unique m -> selections_unique (delete i m).
Proof.
  intros Hu a b x y Ha Hb. apply lookup_delete_Some in Ha as [_ Ha].
  apply lookup_delete_Some in Hb as [_ Hb]. eapply Hu; eauto.
Qed.

(** What [removeUserPromptSelection] does to the store: nothing, or the
    removal of one identifier. *)
Lemma removeUserPromptSelection_store (promptId : string) (userId : option string)
    (w : World) :
  let w' := world_after (removeUserPromptSelection promptId userId) w in
  db_selections w' = db_selections w \/
  exists i, db_selections w' = delete i (db_selections w).
Proof.
  unfold world_after, removeUserPromptSelection, bind, dbOperations.getAll. simpl.
  destruct (find _ _) as [s|]; [|left; reflexivity].
  destruct (truthy (sel_id s)) as [i|]; [|left; reflexivity].
  right. exists i. reflexivity.
Qed.

(** Whether the pair is selected can be decided: [some] decides it. *)
Lemma selected_or_not (promptId : string) (userId : option string) (w : World) :
  (exists i s, db_selections w !! i = Some s /\
     sel_promptId s = promptId /\ sel_userId s = or_local_user userId) \/
  ~ (exists i s, db_selections w !! i = Some s /\
       sel_promptId s = promptId /\ sel_userId s = or_local_user userId).
Proof.
  rewrite <- existsb_selects.
  destruct (existsb _ _); [left; reflexivity | right; discriminate].
Qed.

(** C10. When a selection with the given prompt and user is stored,
    [addUserPromptSelection] returns a stored selection with that prompt
    and user and leaves the store as it is.  If no two stored selections
    share their prompt and user, this still holds after
    [addUserPromptSelection] and after [removeUserPromptSelection]; the
    two reading functions do not change the store. *)
Theorem addUserPromptSelection_no_duplicate
    (promptId : string) (userId : option string) (w : World) :
  ((exists i s, db_selections w !! i = Some s /\
      sel_promptId s = promptId /\ sel_userId s = or_local_user userId) ->
   exists existing w',
     addUserPromptSelection promptId userId w = (Ok existing, w') /\
     (exists i, db_selections w !! i = Some existing) /\
     sel_promptId existing = promptId /\
     sel_userId existing = or_local_user userId /\
     db_selections w' = db_selections w) /\
  (selections_unique (db_selections w) ->
   selections_unique
     (db_selections (world_after (addUserPromptSelection promptId userId) w)) /\
   selections_unique
     (db_selections (world_after (removeUserPromptSelection promptId userId) w))) /\
  db_selections (world_after (getUserPromptSelections userId) w) =
    db_selections w /\
  db_selections (world_after (isPromptSelectedByUser promptId userId) w) =
    db_selections w.
Proof.
  split; [|split; [|split]].
  - intros Hex.
    destruct (addUserPromptSelection_existing promptId userId w Hex)
      as (existing & Hrun & Hin & Hp & Hu).
    exists existing, (set_clock_reads (S (clock_reads w)) w). auto.
  - intros Huniq. split.
    + destruct (selected_or_not promptId userId w) as [Hex|Hnot].
      * destruct (addUserPromptSelection_existing promptId userId w Hex)
          as (existing & Hrun & _).
        unfold world_after. rewrite Hrun. exact Huniq.
      * unfold world_after.
        rewrite (addUserPromptSelection_new promptId userId w Hnot). simpl.
        apply selections_unique_insert;
          [exact Huniq | apply fresh_key_free |].
        intros j t Ht [Hp Hu]. apply Hnot. exists j, t. auto.
    + destruct (removeUserPromptSelection_store promptId userId w) as [E|[i E]];
        rewrite E; [exact Huniq | apply selections_unique_delete, Huniq].
  - reflexivity.
  - reflexivity.
Qed.

(** ** The prompt repository *)

Section Repository.
Context {C : CryptoJS}.

(** C6, as the code has it.  [updatePrompt] throws on a record without an
    identifier.  Otherwise the object it hands to [dbOperations.update]
    is the record [encryptPrompt] returns with the identifier set anew:
    it is filed under that identifier, and every field of it except the
    content is the field of the record [updatePrompt] was given,
    [isPublic] included.  The field is gone only from a record that went
    through the save handler of the page first. *)
Theorem updatePrompt_payload_fields (prompt : Prompt) (w : World) :
  (falsy_opt (id prompt) = true ->
   updatePrompt prompt w = (Throw (Error "Prompt ID is required for update"), w)) /\
  (falsy_opt (id prompt) = false ->
   exists encrypted w1 payload,
     encryptPrompt prompt w = (Ok encrypted, w1) /\
     payload = with_id encrypted (String_of (id prompt)) /\
     updatePrompt_payload prompt w = (Ok payload, w1) /\
     updatePrompt prompt w =
       (Ok payload, set_db_prompts (insert (String_of (id prompt)) payload) w1) /\
     payload = with_content prompt (content encrypted) /\
     isPublic payload = isPublic prompt /\
     forall now payload' w',
       updatePrompt_payload (onSave_updatedData prompt now) w = (Ok payload', w') ->
       isPublic payload' = None).
Proof.
  split.
  - intros Hid. unfold updatePrompt, updatePrompt_payload, bind.
    rewrite Hid. reflexivity.
  - intros Hid. destruct (encryptPrompt_returns prompt w) as (encrypted & w1 & He).
    exists encrypted, w1, (with_id encrypted (String_of (id prompt))).
    split; [exact He|]. split; [reflexivity|].
    assert (Hpay : updatePrompt_payload prompt w =
                   (Ok (with_id encrypted (String_of (id prompt))), w1)).
    { unfold updatePrompt_payload, bind. rewrite Hid, He. reflexivity. }
    split; [exact Hpay|]. split.
    { unfold updatePrompt, bind. rewrite Hpay. reflexivity. }
    pose proof (encryptPrompt_fields _ _ _ _ He) as Hf.
    split; [|split].
    + rewrite Hf at 1. destruct prompt as [[i|] t ty c d ex ca ua u ip pc];
        [reflexivity | discriminate Hid].
    + rewrite Hf. reflexivity.
    + intros now payload' w' H. unfold updatePrompt_payload, bind in H.
      change (id (onSave_updatedData prompt now)) with (id prompt) in H.
      rewrite Hid in H.
      destruct (encryptPrompt_returns (onSave_updatedData prompt now) w)
        as (e' & w1' & He').
      rewrite He' in H. inversion H. subst payload' w'.
      rewrite (encryptPrompt_fields _ _ _ _ He'). reflexivity.
Qed.

End Repository.

Section Copy.
Context {C : CryptoJS} {L : CryptoJS_laws C}.

(** [decryptPrompt] gives the plain text back from its ciphertext under
    the active key. *)
Lemma decryptPrompt_AES_encrypt (prompt : Prompt) (w w1 : World)
    (k text : string) (salt : list byte) :
  generateLocalEncryptionKey w = (Ok k, w1) ->
  text <> "" -> AES_encrypt text k salt = Ok (content prompt) ->
  decryptPrompt prompt w = (Ok (with_content prompt text), w1).
Proof.
  intros Hk Hne Hc.
  destruct (generateLocalEncryptionKey_total w) as (k' & w1' & Hk' & Hkne & Hs).
  rewrite Hk in Hk'. inversion Hk'. subst k' w1'.
  rewrite (decryptPrompt_from_key prompt w w1 k Hk).
  rewrite (decryptPrompt_active prompt w1 k (conj Hs Hkne)).
  rewrite (isEncrypted_AES_encrypt _ _ _ _ _ Hc Hne).
  rewrite (decryptText_AES_encrypt _ _ _ _ _ Hc Hne). reflexivity.
Qed.

(** C9. When a prompt is filed under [promptId], [copyPrompt] reads it
    through [decryptPrompt], and the record it hands to [addPrompt] has
    the content of the record [decryptPrompt] returned; when the stored
    content is the ciphertext, under the active key, of a text that is not
    empty, that content is the text.  When nothing is filed under
    [promptId], [copyPrompt] throws. *)
Theorem copyPrompt_copies_decrypted_content (promptId : string) (w : World) :
  (forall original,
     db_prompts w !! promptId = Some original ->
     exists decrypted w1 payload w2,
       decryptPrompt original w = (Ok decrypted, w1) /\
       getPromptById promptId true w = (Ok (Some decrypted), w1) /\
       copyPrompt_payload promptId w = (Ok payload, w2) /\
       content payload = content decrypted /\
       copyPrompt promptId w = addPrompt payload w2 /\
       forall k w0 text salt,
         generateLocalEncryptionKey w = (Ok k, w0) ->
         text <> "" -> AES_encrypt text k salt = Ok (content original) ->
         content payload = text) /\
  (db_prompts w !! promptId = None ->
   copyPrompt promptId w = (Throw (Error "要复制的提示词不存在。"), w)).
Proof.
  split.
  - intros original Hget.
    destruct (decryptPrompt_returns original w) as (decrypted & w1 & Hd).
    assert (Hfetch : getPromptById promptId true w = (Ok (Some decrypted), w1)).
    { unfold getPromptById, bind, dbOperations.getById. simpl.
      rewrite Hget, Hd. reflexivity. }
    assert (Hpay : copyPrompt_payload promptId w =
      (Ok (drop_publicChangedAt
             (newPromptData decrypted (wallclock w1 (clock_reads w1))
                (wallclock w1 (S (clock_reads w1))))),
       set_clock_reads (S (S (clock_reads w1))) w1)).
    { unfold copyPrompt_payload, bind. rewrite Hfetch. reflexivity. }
    eexists decrypted, w1, _, _. split; [exact Hd|]. split; [exact Hfetch|].
    split; [exact Hpay|]. split; [reflexivity|]. split.
    + unfold copyPrompt, bind. rewrite Hpay. reflexivity.
    + intros k w0 text salt Hk Hne Hc.
      rewrite (decryptPrompt_AES_encrypt original w w0 k text salt Hk Hne Hc) in Hd.
      inversion Hd. reflexivity.
  - intros Hget. unfold copyPrompt, copyPrompt_payload, getPromptById, bind,
      dbOperations.getById. simpl. rewrite Hget. reflexivity.
Qed.

End Copy.

(** ** The properties on the reference implementation *)

Module Scenarios.
Import Reference ReferenceFacts Samples.

(** Scenario A: a text comes back under the key it was encrypted with. *)
Lemma decryptText_encryptText_witness :
  exists c w',
    encryptText (C := cryptojs) "Hello World" "key1" empty_world = (Ok c, w') /\
    forall w'', decryptText (C := cryptojs) c "key1" w'' = (Ok "Hello World", w'').
Proof.
  apply (@decryptText_encryptText cryptojs laws "Hello World" "key1" empty_world);
    [discriminate | reflexivity | reflexivity].
Defined.

(** The round trip fails on the empty text, with every implementation of
    the library that meets the laws: [decryptText] throws on whatever
    [encryptText] returns for it.  A text that cannot be encoded is not
    encrypted at all.  The reference implementation shows both. *)
Lemma decryptText_encryptText_counterexample :
  (forall (C : CryptoJS), CryptoJS_laws C ->
   forall k c w w' w'',
     encryptText "" k w = (Ok c, w') ->
     decryptText c k w'' =
       (Throw (Error "Decryption failed or resulted in empty string"), w'')) /\
  (exists c w',
     encryptText (C := cryptojs) "" "key1" empty_world = (Ok c, w') /\
     decryptText (C := cryptojs) c "key1" w' =
       (Throw (Error "Decryption failed or resulted in empty string"), w')) /\
  (exists w',
     encryptText (C := cryptojs) (String "255" "") "key1" empty_world =
       (Throw (Error "加密失败"), w')).
Proof.
  split; [|split].
  - intros C L k c w w' w''. apply decryptText_encryptText_empty.
  - eexists _, _. split; reflexivity.
  - eexists. reflexivity.
Qed.

(** Key persistence, from the empty world. *)
Lemma generateLocalEncryptionKey_once_witness :
  exists k w1,
    generateLocalEncryptionKey empty_world = (Ok k, w1) /\
    k = enc_Hex (map (entropy empty_world)
                   (seq (drawn empty_world) 32)) /\
    localStorage w1 =
      <["zhuguang_local_encryption_key" := k]> (localStorage empty_world) /\
    forall n, successive_keys n w1 = (Ok (repeat k n), w1).
Proof.
  apply (generateLocalEncryptionKey_once empty_world). reflexivity.
Defined.

(** Scenario B: the wrong key makes [decryptText] throw. *)
Example decryptText_wrong_key :
  exists c w',
    encryptText (C := cryptojs) "x" "key1" empty_world = (Ok c, w') /\
    decryptText (C := cryptojs) c "key2" w' =
      (Throw (Error "Malformed UTF-8 data"), w').
Proof. eexists _, _. split; reflexivity. Qed.

(** Scenario D: a second [encryptPrompt] leaves the record of the first. *)
Lemma encryptPrompt_idempotent_witness :
  exists once w1 w2,
    encryptPrompt (C := cryptojs) (draft "hello") empty_world = (Ok once, w1) /\
    encryptPrompt (C := cryptojs) once w1 = (Ok once, w2).
Proof.
  apply (@encryptPrompt_idempotent cryptojs laws (draft "hello") empty_world);
    [discriminate | reflexivity].
Defined.

(** Idempotence fails on empty content.  With every implementation of
    the library that meets the laws, once a first pass has encrypted the
    empty content, a second pass replaces the ciphertext by a longer one.
    On the reference implementation a draft with empty content is
    encrypted by the first pass and again by the second.  It also fails
    on a plain text that starts with the marker: whether such a text is
    taken for a ciphertext depends on the salt drawn, and on the reference
    implementation the first pass leaves the text as it is and the second
    encrypts it. *)
Lemma encryptPrompt_idempotent_counterexample :
  (forall (C : CryptoJS), CryptoJS_laws C ->
   forall prompt once w w1,
     content prompt = "" ->
     encryptPrompt prompt w = (Ok once, w1) -> content once <> "" ->
     exists twice w2,
       encryptPrompt once w1 = (Ok twice, w2) /\
       String.length (content once) < String.length (content twice)) /\
  (exists once w1 twice w2,
     encryptPrompt (C := cryptojs) (draft "") empty_world = (Ok once, w1) /\
     encryptPrompt (C := cryptojs) once w1 = (Ok twice, w2) /\
     content once =
       "U2FsdGVkX1abd0f51a3f6489ae|0b30557a9fc4e90e33587da2c7ec11365b80a5caef14395e83a8cdf2173c6186|" /\
     twice <> once) /\
  (exists w1 twice w2,
     encryptPrompt (C := cryptojs) (draft marked_text) later_world =
       (Ok (draft marked_text), w1) /\
     encryptPrompt (C := cryptojs) (draft marked_text) w1 = (Ok twice, w2) /\
     twice <> draft marked_text).
Proof.
  split; [|split].
  - intros C L prompt once w w1. apply encryptPrompt_empty_wraps_again.
  - eexists _, _, _, _. split; [reflexivity|]. split; [reflexivity|].
    split; [reflexivity|]. vm_compute. discriminate.
  - eexists _, _, _. split; [reflexivity|]. split; [reflexivity|].
    vm_compute. discriminate.
Qed.

(** Scenario E: a content that does not decrypt comes back as it is. *)
Example decryptPromptOnDemand_undecryptable :
  exists w',
    decryptPromptOnDemand (C := cryptojs) (draft "U2FsdGVkX1ab|other key|hello")
      empty_world = (Ok "U2FsdGVkX1ab|other key|hello", w').
Proof. eexists. reflexivity. Qed.

(** A record that cannot be encrypted is stored as it is. *)
Example encryptPrompt_not_encodable :
  exists w',
    encryptPrompt (C := cryptojs) (draft (String "255" "")) empty_world =
      (Ok (draft (String "255" "")), w').
Proof. eexists. reflexivity. Qed.

(** [updatePrompt] files the record with its [isPublic] field. *)
Lemma updatePrompt_keeps_isPublic_counterexample :
  exists payload w',
    updatePrompt (C := cryptojs) (with_id (draft "hello") "7") empty_world =
      (Ok payload, w') /\
    isPublic payload = Some true /\
    db_prompts w' !! "7" = Some payload.
Proof. eexists _, _. split; [reflexivity|]. split; reflexivity. Qed.

(** The copy of the one stored prompt has its plain text. *)
Lemma copyPrompt_copies_decrypted_content_witness :
  exists payload w2,
    copyPrompt_payload (C := cryptojs) "0" one_prompt_world = (Ok payload, w2) /\
    content payload = "hello" /\
    copyPrompt (C := cryptojs) "0" one_prompt_world =
      addPrompt (C := cryptojs) payload w2.
Proof.
  destruct (@copyPrompt_copies_decrypted_content cryptojs laws "0" one_prompt_world)
    as [Hcopy _].
  destruct (Hcopy (with_id (with_content (draft "hello")
      "U2FsdGVkX1abd0f51a3f6489ae|0b30557a9fc4e90e33587da2c7ec11365b80a5caef14395e83a8cdf2173c6186|hello") "0")
    eq_refl) as (decrypted & w1 & payload & w2 & _ & _ & Hpay & _ & Hadd & Htext).
  exists payload, w2. split; [exact Hpay|]. split; [|exact Hadd].
  apply (Htext "0b30557a9fc4e90e33587da2c7ec11365b80a5caef14395e83a8cdf2173c6186"
           one_prompt_world "hello"
           (map (entropy empty_world) (seq 32 8)));
    [reflexivity | discriminate | reflexivity].
Defined.

(** The ciphertext of scenario A is taken for a ciphertext. *)
Lemma isEncrypted_spec_witness :
  isEncrypted (C := cryptojs) "U2FsdGVkX10b30557a9fc4e90e|key1|Hello World" "key1"
    empty_world = (Ok true, empty_world).
Proof.
  destruct (@isEncrypted_spec cryptojs
              "U2FsdGVkX10b30557a9fc4e90e|key1|Hello World" "key1" empty_world)
    as (_ & Hiff & _).
  destruct Hiff as (b & Hrun & Hb); [discriminate | reflexivity |].
  assert (b = true) as ->.
  { apply Hb. exists "Hello World". split; [reflexivity | discriminate]. }
  exact Hrun.
Defined.

(** The envelope of the empty text decrypts to nothing, and
    [decryptText] throws. *)
Lemma decryptText_empty_result_is_failure_witness :
  decryptText (C := cryptojs) "U2FsdGVkX10b30557a9fc4e90e|key1|" "key1" empty_world =
    (Throw (Error "Decryption failed or resulted in empty string"), empty_world).
Proof.
  destruct (@decryptText_empty_result_is_failure cryptojs
              "U2FsdGVkX10b30557a9fc4e90e|key1|" "key1" empty_world)
    as (Hempty & _).
  apply (Hempty [] empty_world); reflexivity.
Defined.

(** The three failures.  [encryptText] throws inside [encryptPrompt] on a
    text that cannot be encoded.  For a text that starts with the marker
    and is no envelope, [isEncrypted] answers [true] under the salt it
    draws and the [decryptText] that follows throws under the next salt,
    inside [decryptPrompt] and inside [decryptPromptOnDemand].  Each time
    what was given comes back. *)
Lemma gateway_contains_failures_witness :
  (exists e w',
     encryptPrompt_try (C := cryptojs) (draft (String "255" "")) empty_world =
       (Throw e, w') /\
     encryptPrompt (C := cryptojs) (draft (String "255" "")) empty_world =
       (Ok (draft (String "255" "")), w')) /\
  (exists e w',
     decryptPrompt_try (C := cryptojs) (draft marked_text) later_world =
       (Throw e, w') /\
     decryptPrompt (C := cryptojs) (draft marked_text) later_world =
       (Ok (draft marked_text), w')) /\
  (exists e w',
     decryptPromptOnDemand_try (C := cryptojs) (draft marked_text) later_world =
       (Throw e, w') /\
     decryptPromptOnDemand (C := cryptojs) (draft marked_text) later_world =
       (Ok marked_text, w')).
Proof.
  destruct (@gateway_contains_failures cryptojs (draft (String "255" "")) empty_world)
    as ((r & w' & Hrun & Hthrow) & _).
  destruct (@gateway_contains_failures cryptojs (draft marked_text) later_world)
    as (_ & (r1 & w1 & Hrun1 & Hthrow1) & (s & w2 & Hrun2 & Hthrow2 & _)).
  split; [|split].
  - eexists _, _. split; [reflexivity|].
    edestruct Hthrow as [Hr Hw]; [reflexivity|].
    rewrite Hr, Hw in Hrun. exact Hrun.
  - eexists _, _. split; [reflexivity|].
    edestruct Hthrow1 as [Hr Hw]; [reflexivity|].
    rewrite Hr, Hw in Hrun1. exact Hrun1.
  - eexists _, _. split; [reflexivity|].
    edestruct Hthrow2 as [Hr Hw]; [reflexivity|].
    rewrite Hr, Hw in Hrun2. exact Hrun2.
Defined.

(** A record with an identifier and [isPublic] set. *)
Lemma updatePrompt_payload_fields_witness :
  exists encrypted w1 payload,
    encryptPrompt (C := cryptojs) (with_id (draft "hello") "7") empty_world =
      (Ok encrypted, w1) /\
    updatePrompt (C := cryptojs) (with_id (draft "hello") "7") empty_world =
      (Ok payload, set_db_prompts (insert "7" payload) w1) /\
    isPublic payload = Some true.
Proof.
  destruct (@updatePrompt_payload_fields cryptojs (with_id (draft "hello") "7")
              empty_world) as (_ & Hupdate).
  destruct (Hupdate eq_refl)
    as (encrypted & w1 & payload & He & _ & _ & Hrun & _ & Hpublic & _).
  exists encrypted, w1, payload. auto.
Defined.

(** The stored prompt and a plain draft, decrypted in one call. *)
Lemma decryptPrompts_maps_decryptPrompt_witness :
  exists rs w',
    decryptPrompts (C := cryptojs)
      [with_id (with_content (draft "hello")
         "U2FsdGVkX1abd0f51a3f6489ae|0b30557a9fc4e90e33587da2c7ec11365b80a5caef14395e83a8cdf2173c6186|hello") "0";
       draft "plain"]
      one_prompt_world = (Ok rs, w') /\
    length rs = 2 /\
    rs !! 0 = Some (with_id (draft "hello") "0") /\
    rs !! 1 = Some (draft "plain").
Proof.
  destruct (@decryptPrompts_maps_decryptPrompt cryptojs
    [with_id (with_content (draft "hello")
       "U2FsdGVkX1abd0f51a3f6489ae|0b30557a9fc4e90e33587da2c7ec11365b80a5caef14395e83a8cdf2173c6186|hello") "0";
     draft "plain"]
    one_prompt_world) as (rs & w' & Hrun & Hlen & _ & Hnth).
  exists rs, w'. split; [exact Hrun|]. split; [exact Hlen|]. split.
  - destruct (Hnth 0 _ eq_refl eq_refl) as (r & Hr & Hret).
    rewrite Hr. rewrite <- Hret. reflexivity.
  - destruct (Hnth 1 _ eq_refl eq_refl) as (r & Hr & Hret).
    rewrite Hr. rewrite <- Hret. reflexivity.
Defined.

(** The same record twice in one list: each call draws its own salts.
    Here the first call ends in the [catch] and returns the record as it
    is, and the second replaces its content. *)
Example decryptPrompts_one_call_after_the_other :
  exists r w',
    decryptPrompts (C := cryptojs) [draft marked_text; draft marked_text]
      later_world = (Ok [draft marked_text; r], w') /\
    r <> draft marked_text.
Proof. eexists _, _. split; [reflexivity|]. vm_compute. discriminate. Qed.

(** Selecting the same prompt a second time. *)
Lemma addUserPromptSelection_no_duplicate_witness :
  exists existing w',
    addUserPromptSelection "p1" None one_selection_world = (Ok existing, w') /\
    sel_promptId existing = "p1" /\ sel_userId existing = "local_user" /\
    db_selections w' = db_selections one_selection_world.
Proof.
  destruct (addUserPromptSelection_no_duplicate "p1" None one_selection_world)
    as (Hexisting & _).
  destruct Hexisting as (existing & w' & Hrun & _ & Hp & Hu & Hstore).
  - exists "0", (mkSelection (Some "0") "local_user" "p1" (time 1700000000000)).
    split; [reflexivity|]. split; reflexivity.
  - exists existing, w'. auto.
Defined.

End Scenarios.

(** * More properties *)

(** ** Sorting *)

Lemma sort_insert_Permutation {A} (compare : A -> A -> option Z) (a : A) (l : list A) :
  sort_insert compare a l ≡ₚ a :: l.
Proof.
  induction l as [|b l IH]; simpl; [reflexivity|].
  destruct (SortCompare compare b a <? 0)%Z; [|reflexivity].
  rewrite IH. apply Permutation_swap.
Qed.

Lemma Array_sort_Permutation {A} (compare : A -> A -> option Z) (l : list A) :
  Array_sort compare l ≡ₚ l.
Proof.
  induction l as [|a l IH]; simpl; [reflexivity|].
  unfold Array_sort in *. simpl. rewrite sort_insert_Permutation, IH. reflexivity.
Qed.

(** On valid dates the comparator is the difference of the times. *)
Lemma by_updatedAt_desc_valid (a b : Prompt) (ta tb : Z) :
  updated a = Some ta -> updated b = Some tb ->
  SortCompare by_updatedAt_desc a b = (tb - ta)%Z.
Proof.
  unfold updated, SortCompare, by_updatedAt_desc. intros -> ->. reflexivity.
Qed.

(** On an invalid date it is [NaN], whatever the other date is. *)
Lemma by_updatedAt_desc_NaN (a b : Prompt) :
  updated a = None \/ updated b = None -> by_updatedAt_desc a b = None.
Proof.
  unfold updated, by_updatedAt_desc. intros [H|H]; rewrite H;
    [destruct (Date_getTime (updatedAt b)) | ]; reflexivity.
Qed.

Lemma valid_dates_Permutation (l l' : list Prompt) :
  l ≡ₚ l' -> valid_dates l -> valid_dates l'.
Proof. unfold valid_dates. intros H. rewrite H. auto. Qed.

Lemma valid_dates_filter (P : Prompt -> Prop) `{!forall p, Decision (P p)}
    (l : list Prompt) :
  valid_dates l -> valid_dates (filter P l).
Proof.
  unfold valid_dates. rewrite !Forall_forall. intros Hv x Hx.
  apply list_elem_of_filter in Hx as [_ Hx]. exact (Hv x Hx).
Qed.

Lemma not_older_valid (a b : Prompt) (ta tb : Z) :
  updated a = Some ta -> updated b = Some tb ->
  (not_older a b <-> (tb <= ta)%Z).
Proof. unfold not_older. intros -> ->. reflexivity. Qed.

Lemma sort_insert_newest_first (a : Prompt) (l : list Prompt) :
  is_Some (updated a) -> valid_dates l ->
  newest_first l -> newest_first (sort_insert by_updatedAt_desc a l).
Proof.
  unfold newest_first, valid_dates. intros [ta Ha].
  induction l as [|b l IH]; intros Hv Hs; simpl.
  - repeat constructor.
  - apply StronglySorted_inv in Hs as [Hl Hb].
    apply Forall_cons in Hv as [[tb Htb] Hv].
    rewrite (by_updatedAt_desc_valid b a tb ta Htb Ha).
    destruct (ta - tb <? 0)%Z eqn:Hc.
    + constructor; [apply IH; assumption|].
      apply Z.ltb_lt in Hc.
      rewrite Forall_forall. intros x Hx.
      rewrite sort_insert_Permutation in Hx.
      apply elem_of_cons in Hx as [->|Hx].
      * apply (not_older_valid b a tb ta Htb Ha). lia.
      * rewrite Forall_forall in Hb. apply Hb, Hx.
    + apply Z.ltb_ge in Hc.
      constructor; [constructor; assumption|].
      constructor; [apply (not_older_valid a b ta tb Ha Htb); lia|].
      rewrite Forall_forall in Hb, Hv |- *. intros x Hx.
      destruct (Hv x Hx) as [tx Htx]. specialize (Hb x Hx).
      apply (not_older_valid b x tb tx Htb Htx) in Hb.
      apply (not_older_valid a x ta tx Ha Htx). lia.
Qed.

Lemma Array_sort_newest_first (l : list Prompt) :
  valid_dates l -> newest_first (Array_sort by_updatedAt_desc l).
Proof.
  induction l as [|a l IH]; intros Hv; [constructor|].
  apply Forall_cons in Hv as [Ha Hv].
  apply sort_insert_newest_first; [exact Ha | | apply IH, Hv].
  eapply valid_dates_Permutation; [|exact Hv].
  symmetry. apply Array_sort_Permutation.
Qed.

(** Records with the same time keep their order. *)
Lemma sort_insert_stable (t : Z) (a : Prompt) (l : list Prompt) :
  is_Some (updated a) -> valid_dates l -> newest_first l ->
  filter (fun p => updated p = Some t) (sort_insert by_updatedAt_desc a l) =
  filter (fun p => updated p = Some t) (a :: l).
Proof.
  unfold newest_first, valid_dates. intros [ta Ha].
  induction l as [|b l IH]; intros Hv Hs; simpl; [reflexivity|].
  apply StronglySorted_inv in Hs as [Hl Hb].
  apply Forall_cons in Hv as [[tb Htb] Hv].
  rewrite (by_updatedAt_desc_valid b a tb ta Htb Ha).
  destruct (ta - tb <? 0)%Z eqn:Hc; [|reflexivity].
  apply Z.ltb_lt in Hc.
  rewrite (filter_cons _ b), (IH Hv Hl), !filter_cons.
  destruct (decide (updated b = Some t)), (decide (updated a = Some t));
    try reflexivity.
  exfalso. assert (ta = tb) by congruence. lia.
Qed.

Lemma Array_sort_stable (t : Z) (l : list Prompt) :
  valid_dates l ->
  filter (fun p => updated p = Some t) (Array_sort by_updatedAt_desc l) =
  filter (fun p => updated p = Some t) l.
Proof.
  induction l as [|a l IH]; intros Hv; [reflexivity|].
  apply Forall_cons in Hv as [Ha Hv].
  change (Array_sort by_updatedAt_desc (a :: l))
    with (sort_insert by_updatedAt_desc a (Array_sort by_updatedAt_desc l)).
  rewrite sort_insert_stable;
    [ | exact Ha
      | eapply valid_dates_Permutation; [symmetry; apply Array_sort_Permutation | exact Hv]
      | apply Array_sort_newest_first, Hv ].
  rewrite !filter_cons, (IH Hv). reflexivity.
Qed.

(** A list that is newest first already is left as it is. *)
Lemma Array_sort_sorted (l : list Prompt) :
  valid_dates l -> newest_first l -> Array_sort by_updatedAt_desc l = l.
Proof.
  unfold newest_first. induction l as [|a l IH]; intros Hv Hs; [reflexivity|].
  apply StronglySorted_inv in Hs as [Hl Ha].
  apply Forall_cons in Hv as [[ta Hta] Hv].
  change (Array_sort by_updatedAt_desc (a :: l))
    with (sort_insert by_updatedAt_desc a (Array_sort by_updatedAt_desc l)).
  rewrite (IH Hv Hl). destruct l as [|b l]; [reflexivity|]. simpl.
  apply Forall_cons in Ha as [Hab _].
  apply Forall_cons in Hv as [[tb Htb] _].
  rewrite (by_updatedAt_desc_valid b a tb ta Htb Hta).
  apply (not_older_valid a b ta tb Hta Htb) in Hab.
  assert ((ta - tb <? 0)%Z = false) as ->; [|reflexivity].
  apply Z.ltb_ge. lia.
Qed.

(** ** Listing prompts *)

Section Listing.
Context {C : CryptoJS}.

(** X1. [getPromptsByType] without decryption changes nothing in the
    world.  When every stored prompt carries a valid date of its last
    change, it returns the stored prompts of the given type, each as often
    as [getAll] lists it, newest first, prompts of the same time in the
    order of [getAll]; [getAllPrompts] does the same for all stored
    prompts. *)
Theorem getPromptsByType_listing (type' : string) (w : World) (all : list Prompt) :
  returns (dbOperations.getAll MAIN PROMPTS) w = Some all ->
  valid_dates all ->
  (exists listing,
     getPromptsByType type' false w = (Ok listing, w) /\
     listing ≡ₚ filter (fun p => type p = type') all /\
     newest_first listing /\
     forall t, filter (fun p => updated p = Some t) listing =
               filter (fun p => updated p = Some t)
                 (filter (fun p => type p = type') all)) /\
  (exists listing,
     getAllPrompts false w = (Ok listing, w) /\
     listing ≡ₚ all /\
     newest_first listing /\
     forall t, filter (fun p => updated p = Some t) listing =
               filter (fun p => updated p = Some t) all).
Proof.
  unfold returns, dbOperations.getAll. intros Hall Hv. inversion Hall. subst all.
  clear Hall.
  pose proof (valid_dates_filter (fun p => type p = type') _ Hv) as Hvf.
  split.
  - eexists. split; [reflexivity|].
    split; [apply Array_sort_Permutation|].
    split; [apply Array_sort_newest_first, Hvf|].
    intros t. apply Array_sort_stable, Hvf.
  - eexists. split; [reflexivity|].
    split; [apply Array_sort_Permutation|].
    split; [apply Array_sort_newest_first, Hv|].
    intros t. apply Array_sort_stable, Hv.
Qed.

(** X2. The decryption flag of [getPromptsByType] changes contents only:
    with the flag, the result is what [decryptPrompts] makes of the result
    without it, so it has the same length and order, each record differs
    from its stored counterpart in the content at most, and the database
    is as it was.  The three functions that forward to [getPromptsByType]
    return the same. *)
Theorem getPromptsByType_decrypted (type' : string) (w : World) :
  exists listing rs w',
    getPromptsByType type' false w = (Ok listing, w) /\
    getPromptsByType type' true w = (Ok rs, w') /\
    decryptPrompts listing w = (Ok rs, w') /\
    Forall2 (fun p r => r = with_content p (content r)) listing rs /\
    db_prompts w' = db_prompts w /\
    getAIInterfacePromptsByType type' true w = (Ok rs, w') /\
    getPublicPrompts type' true w = (Ok rs, w') /\
    getUserCreatedPrompts type' true w = (Ok rs, w').
Proof.
  set (listing := Array_sort by_updatedAt_desc
         (filter (fun p => type p = type') (map snd (map_to_list (db_prompts w))))).
  destruct (decryptPrompts_returns listing w) as (rs & w' & Hrun).
  exists listing, rs, w'.
  assert (Hflag : getPromptsByType type' true w = (Ok rs, w')) by exact Hrun.
  split; [reflexivity|]. split; [exact Hflag|]. split; [exact Hrun|].
  split; [eapply decryptPrompts_fields; eauto|].
  split; [eapply decryptPrompts_frame; eauto|]. auto.
Qed.

End Listing.

(** X3. [isUserPrompt] answers [false] only when a user is given, the
    prompt names an owner, and the two differ; a prompt without owner, or
    with the empty string as owner, passes for every user, and every
    prompt passes when no user, or the empty string, is given. *)
Theorem isUserPrompt_false (prompt : Prompt) (user : option string) (w : World) :
  exists b,
    isUserPrompt prompt user w = (Ok b, w) /\
    (b = false <->
     exists u owner,
       user = Some u /\ u <> "" /\
       userId prompt = Some owner /\ owner <> "" /\ owner <> u).
Proof.
  unfold isUserPrompt.
  destruct (truthy user) as [u|] eqn:Hu.
  - destruct (truthy (userId prompt)) as [owner|] eqn:Ho.
    + apply truthy_Some in Hu as [Hu Hune]. apply truthy_Some in Ho as [Ho Hone].
      eexists. split; [reflexivity|]. rewrite String.eqb_neq. split.
      * intros Hne. exists u, owner. auto.
      * intros (u' & owner' & Eu & _ & Eo & _ & Hne). congruence.
    + exists true. split; [reflexivity|]. split; [discriminate|].
      intros (u' & owner' & _ & _ & Eo & Hne & _).
      apply truthy_None in Ho as [Ho|Ho]; congruence.
  - exists true. split; [reflexivity|]. split; [discriminate|].
    intros (u' & owner' & Eu & Hne & _).
    apply truthy_None in Hu as [Hu|Hu]; congruence.
Qed.

(** ** More on the gateway *)

Section GatewayMore.
Context {C : CryptoJS}.


(** X4. [decryptPromptOnDemand] returns the content of the record
    [decryptPrompt] returns for the same record in the same world, and
    leaves the same world behind. *)
Theorem decryptPromptOnDemand_decryptPrompt (prompt : Prompt) (w : World) :
  exists r w',
    decryptPrompt prompt w = (Ok r, w') /\
    decryptPromptOnDemand prompt w = (Ok (content r), w').
Proof.
  destruct (generateLocalEncryptionKey_total w) as (k & w1 & Hk & Hne & Hs).
  assert (Ha : active_key k w1) by (split; assumption).
  rewrite (decryptPrompt_from_key prompt w w1 k Hk).
  rewrite (decryptPromptOnDemand_from_key prompt w w1 k Hk).
  rewrite (decryptPrompt_active prompt w1 k Ha).
  rewrite (decryptPromptOnDemand_active prompt w1 k Ha).
  destruct (isEncrypted (content prompt) k w1) as [[[|]|e] w2];
    try (eexists _, _; split; reflexivity).
  destruct (decryptText (content prompt) k w2) as [[d|e] w3];
    eexists _, _; split; reflexivity.
Qed.






End GatewayMore.

Section RoundTrip.
Context {C : CryptoJS} {L : CryptoJS_laws C}.

(** What [encryptPrompt] makes of a plain text that does not start with
    the marker, and what [decryptPrompt] makes of the outcome wherever the
    key is the same: the record as it was given. *)
Lemma encryptPrompt_plain (prompt : Prompt) (w : World) (k : string) :
  active_key k w ->
  content prompt <> "" -> startsWith (content prompt) "U2F" = false ->
  exists encrypted,
    encryptPrompt prompt w = (Ok encrypted, set_drawn (drawn w + 8) w) /\
    forall w', active_key k w' ->
      decryptPrompt encrypted w' = (Ok prompt, w') /\
      forall i, decryptPrompt (with_id encrypted i) w' = (Ok (with_id prompt i), w').
Proof.
  intros Hk Hne Hplain. rewrite (encryptPrompt_active prompt w k Hk).
  rewrite (isEncrypted_unmarked _ _ _ Hplain).
  destruct (AES_encrypt (content prompt) k (map (entropy w) (seq (drawn w) 8)))
    as [c|e] eqn:Hc; eexists; (split; [reflexivity|]); intros w' Hk'; split.
  - rewrite (decryptPrompt_active _ w' k Hk'). simpl content.
    rewrite (isEncrypted_AES_encrypt _ _ _ _ _ Hc Hne).
    rewrite (decryptText_AES_encrypt _ _ _ _ _ Hc Hne). destruct prompt; reflexivity.
  - intros i. rewrite (decryptPrompt_active _ w' k Hk'). simpl content.
    rewrite (isEncrypted_AES_encrypt _ _ _ _ _ Hc Hne).
    rewrite (decryptText_AES_encrypt _ _ _ _ _ Hc Hne). destruct prompt; reflexivity.
  - rewrite (decryptPrompt_active _ w' k Hk').
    rewrite (isEncrypted_unmarked _ _ _ Hplain). reflexivity.
  - intros i. rewrite (decryptPrompt_active _ w' k Hk'). simpl content.
    rewrite (isEncrypted_unmarked _ _ _ Hplain). reflexivity.
Qed.

(** X6. A record that went through [encryptPrompt] comes back from
    [decryptPrompt] as it was, when its content is not empty and does not
    start with the marker [U2F].  This holds whether the encryption
    succeeded or threw, and the reading back draws nothing from the random
    source. *)
Theorem decryptPrompt_encryptPrompt (prompt : Prompt) (w : World) :
  content prompt <> "" -> startsWith (content prompt) "U2F" = false ->
  exists encrypted w1,
    encryptPrompt prompt w = (Ok encrypted, w1) /\
    decryptPrompt encrypted w1 = (Ok prompt, w1).
Proof.
  intros Hne Hplain.
  destruct (generateLocalEncryptionKey_total w) as (k & w0 & Hk & Hkne & Hs).
  assert (Ha : active_key k w0) by (split; assumption).
  destruct (encryptPrompt_plain prompt w0 k Ha Hne Hplain) as (encrypted & Hrun & Hback).
  exists encrypted, (set_drawn (drawn w0 + 8) w0).
  rewrite (encryptPrompt_from_key prompt w w0 k Hk). split; [exact Hrun|].
  apply Hback. eapply active_key_drew; [exact Ha | apply drew_set_drawn].
Qed.

(** X7. What [encryptPrompt] returns for a content that is not empty and
    draws no salt is a ciphertext under the active key, as [isEncrypted]
    sees it whenever it is asked, when the library can encode the content
    and the key; every other field of the record is as it was given. *)
Theorem encryptPrompt_encrypts (prompt : Prompt) (w w0 : World) (k : string) :
  generateLocalEncryptionKey w = (Ok k, w0) ->
  content prompt <> "" -> no_salt_drawn (content prompt) = true ->
  Utf8_ok (content prompt) = true -> Utf8_ok k = true ->
  exists encrypted w1,
    encryptPrompt prompt w = (Ok encrypted, w1) /\
    (forall w', isEncrypted (content encrypted) k w' = (Ok true, w')) /\
    encrypted = with_content prompt (content encrypted).
Proof.
  intros Hk Hne Hfixed Hp Hkey.
  destruct (generateLocalEncryptionKey_total w) as (k' & w0' & Hk' & Hkne & Hs).
  rewrite Hk in Hk'. inversion Hk'. subst k' w0'.
  assert (Ha : active_key k w0) by (split; assumption).
  rewrite (encryptPrompt_from_key prompt w w0 k Hk).
  rewrite (encryptPrompt_active prompt w0 k Ha).
  destruct (isEncrypted_no_salt (content prompt) k w0 w0 Hfixed) as (b & Hb & _).
  rewrite Hb. destruct b.
  - exists prompt, w0. split; [reflexivity|]. split.
    + intros w'.
      destruct (isEncrypted_no_salt (content prompt) k w0 w' Hfixed) as (b & Hb0 & Hb').
      rewrite Hb in Hb0. inversion Hb0. subst b. exact Hb'.
    + symmetry. apply with_content_same.
  - destruct (AES_encrypt_Ok (content prompt) k
                (map (entropy w0) (seq (drawn w0) 8)) Hp Hkey) as [c Hc].
    rewrite Hc. eexists _, _. split; [reflexivity|]. simpl content.
    split; [|reflexivity].
    intros w'. eapply isEncrypted_AES_encrypt; eauto.
Qed.

End RoundTrip.

(** ** More on the key *)

(** The sixteen digits of [CryptoJS.enc.Hex]. *)
Lemma hex_digit_hex (n : N) :
  In (hex_digit n) (list_ascii_of_string "0123456789abcdef").
Proof.
  destruct n as [|p]; [simpl; tauto|].
  do 4 (destruct p as [p|p|]; try (simpl; tauto)).
Qed.

Lemma enc_Hex_digits (bytes : list byte) (a : ascii) :
  In a (list_ascii_of_string (enc_Hex bytes)) ->
  In a (list_ascii_of_string "0123456789abcdef").
Proof.
  induction bytes as [|b l IH]; [intros []|].
  intros [<-|[<-|H]]; [apply hex_digit_hex | apply hex_digit_hex | exact (IH H)].
Qed.

(** X8. A slot that holds nothing, or the empty string, counts as empty:
    [generateLocalEncryptionKey] then makes a key of 64 characters, each a
    lower case hexadecimal digit, puts it in the slot over what was
    there, and takes 32 bytes from the random source. *)
Theorem generateLocalEncryptionKey_makes_hex_key (w : World) :
  localStorage w !! "zhuguang_local_encryption_key" = None \/
  localStorage w !! "zhuguang_local_encryption_key" = Some "" ->
  exists k w1,
    generateLocalEncryptionKey w = (Ok k, w1) /\
    String.length k = 64 /\
    (forall a, In a (list_ascii_of_string k) ->
               In a (list_ascii_of_string "0123456789abcdef")) /\
    localStorage w1 !! "zhuguang_local_encryption_key" = Some k /\
    drawn w1 = drawn w + 32.
Proof.
  intros Hslot. apply truthy_None in Hslot.
  rewrite (generateLocalEncryptionKey_new w Hslot).
  eexists _, _. split; [reflexivity|]. split; [|split; [|split]].
  - rewrite enc_Hex_length, length_map, length_seq. reflexivity.
  - apply enc_Hex_digits.
  - simpl. apply lookup_insert_eq.
  - reflexivity.
Qed.

(** ** The prompt repository and the store *)

Section Store.
Context {C : CryptoJS}.

(** [addPrompt], step by step. *)
Lemma addPrompt_unfold (prompt encrypted : Prompt) (w w1 : World) :
  encryptPrompt prompt w = (Ok encrypted, w1) ->
  addPrompt prompt w =
    (Ok (with_id encrypted (fresh (dom (db_prompts w)))),
     set_db_prompts
       (insert (fresh (dom (db_prompts w)))
          (with_id encrypted (fresh (dom (db_prompts w))))) w1).
Proof.
  intros He. unfold addPrompt, bind. rewrite He.
  unfold dbOperations.add. simpl.
  destruct (encryptPrompt_frame _ _ _ _ He) as (-> & _). reflexivity.
Qed.

(** [addPrompt] files the record [encryptPrompt] returns under an
    identifier that was not in use, and returns it with that identifier;
    the prompts stored before stay as they were. *)
Lemma addPrompt_files (prompt : Prompt) (w : World) :
  exists encrypted w1 i added w',
    encryptPrompt prompt w = (Ok encrypted, w1) /\
    added = with_id encrypted i /\
    addPrompt prompt w = (Ok added, w') /\
    db_prompts w !! i = None /\
    db_prompts w' !! i = Some added /\
    (forall j, j <> i -> db_prompts w' !! j = db_prompts w !! j) /\
    db_selections w' = db_selections w.
Proof.
  destruct (encryptPrompt_returns prompt w) as (encrypted & w1 & He).
  destruct (encryptPrompt_frame _ _ _ _ He) as (Hp & Hs & _).
  eexists encrypted, w1, _, _, _. split; [exact He|]. split; [reflexivity|].
  split; [apply (addPrompt_unfold _ _ _ _ He)|].
  split; [apply fresh_key_free|]. simpl. rewrite Hp. split; [|split].
  - apply lookup_insert_eq.
  - intros j Hj. apply lookup_insert_ne. congruence.
  - exact Hs.
Qed.

(** X11. After [deletePrompt] nothing is filed under the identifier:
    [getPromptById] returns [null] for it, with or without decryption,
    and [copyPrompt] throws; the other prompts stay as they were. *)
Theorem deletePrompt_removes (i : string) (w : World) :
  exists w',
    deletePrompt i w = (Ok tt, w') /\
    (forall decryptContent, getPromptById i decryptContent w' = (Ok None, w')) /\
    copyPrompt i w' = (Throw (Error "要复制的提示词不存在。"), w') /\
    (forall j, j <> i -> db_prompts w' !! j = db_prompts w !! j) /\
    localStorage w' = localStorage w.
Proof.
  eexists. split; [reflexivity|].
  assert (Hgone : forall b,
    getPromptById i b (set_db_prompts (delete i) w) =
      (Ok None, set_db_prompts (delete i) w)).
  { intros b. unfold getPromptById, bind, dbOperations.getById. simpl.
    rewrite lookup_delete_eq. reflexivity. }
  split; [exact Hgone|]. split; [|split].
  - unfold copyPrompt, copyPrompt_payload, bind. rewrite Hgone. reflexivity.
  - intros j Hj. simpl. apply lookup_delete_ne. congruence.
  - reflexivity.
Qed.

(** X12. The copy [copyPrompt] makes: its title is the title of the
    original followed by [ (复制)], it is not public, and its type,
    description, examples and user are those of the original; it is
    filed under an identifier of its own, and the original stays filed
    as it was. *)
Theorem copyPrompt_copy (promptId : string) (original : Prompt) (w : World) :
  db_prompts w !! promptId = Some original ->
  exists copy w' i,
    copyPrompt promptId w = (Ok copy, w') /\
    id copy = Some i /\ i <> promptId /\
    db_prompts w' !! i = Some copy /\
    db_prompts w' !! promptId = Some original /\
    title copy = (title original ++ " (复制)")%string /\
    isPublic copy = Some false /\
    type copy = type original /\
    description copy = description original /\
    examples copy = examples original /\
    userId copy = userId original /\
    publicChangedAt copy = None.
Proof.
  intros Hget.
  destruct (decryptPrompt_returns original w) as (decrypted & w1 & Hd).
  destruct (decryptPrompt_frame _ _ _ _ Hd) as (Hp1 & _).
  pose proof (decryptPrompt_fields _ _ _ _ Hd) as Hf.
  set (payload := drop_publicChangedAt
         (newPromptData decrypted (wallclock w1 (clock_reads w1))
            (wallclock w1 (S (clock_reads w1))))).
  set (w2 := set_clock_reads (S (S (clock_reads w1))) w1).
  assert (Hpay : copyPrompt_payload promptId w = (Ok payload, w2)).
  { unfold copyPrompt_payload, getPromptById, bind, dbOperations.getById. simpl.
    rewrite Hget, Hd. reflexivity. }
  destruct (encryptPrompt_returns payload w2) as (encrypted & w3 & He).
  destruct (encryptPrompt_frame _ _ _ _ He) as (Hp3 & _).
  pose proof (encryptPrompt_fields _ _ _ _ He) as Hfe.
  assert (Hrun : copyPrompt promptId w =
    (Ok (with_id encrypted (fresh (dom (db_prompts w2)))),
     set_db_prompts
       (insert (fresh (dom (db_prompts w2)))
          (with_id encrypted (fresh (dom (db_prompts w2))))) w3)).
  { unfold copyPrompt, bind. rewrite Hpay. apply addPrompt_unfold, He. }
  assert (Hstore : db_prompts w2 = db_prompts w) by exact Hp1.
  assert (Hfree : fresh (dom (db_prompts w2)) <> promptId).
  { intros E. pose proof (fresh_key_free (db_prompts w2)) as Hnone.
    rewrite E, Hstore, Hget in Hnone. discriminate Hnone. }
  eexists _, _, _. split; [exact Hrun|]. split; [reflexivity|].
  split; [exact Hfree|]. simpl. rewrite Hp3.
  split; [apply lookup_insert_eq|].
  split; [rewrite lookup_insert_ne by exact Hfree; rewrite Hstore; exact Hget|].
  rewrite Hfe. unfold payload. rewrite Hf. repeat split; reflexivity.
Qed.

End Store.

Section StoreRoundTrip.
Context {C : CryptoJS} {L : CryptoJS_laws C}.

(** X9. A prompt that was added reads back as it was given: after
    [addPrompt], [getPromptById] with decryption returns the record with
    the identifier the store assigned and every other field, the content
    included, as given, when the content is not empty and does not start
    with the marker [U2F]. *)
Theorem getPromptById_addPrompt (prompt : Prompt) (w : World) :
  content prompt <> "" -> startsWith (content prompt) "U2F" = false ->
  exists added i w1,
    addPrompt prompt w = (Ok added, w1) /\
    id added = Some i /\
    getPromptById i false w1 = (Ok (Some added), w1) /\
    getPromptById i true w1 = (Ok (Some (with_id prompt i)), w1).
Proof.
  intros Hne Hplain.
  destruct (generateLocalEncryptionKey_total w) as (k & w0 & Hk & Hkne & Hs).
  assert (Ha : active_key k w0) by (split; assumption).
  destruct (encryptPrompt_plain prompt w0 k Ha Hne Hplain) as (encrypted & He & Hback).
  rewrite <- (encryptPrompt_from_key prompt w w0 k Hk) in He.
  eexists _, _, _. split; [apply (addPrompt_unfold _ _ _ _ He)|].
  split; [reflexivity|]. split.
  - unfold getPromptById, bind, dbOperations.getById. simpl.
    rewrite lookup_insert_eq. reflexivity.
  - unfold getPromptById, bind, dbOperations.getById. simpl.
    rewrite lookup_insert_eq.
    match goal with |- context [decryptPrompt _ ?w'] =>
      destruct (Hback w' Ha) as [_ Hid] end.
    rewrite Hid. reflexivity.
Qed.

(** X10. A prompt that was updated reads back as it was given: after
    [updatePrompt] on a record with an identifier, [getPromptById] with
    decryption returns that record, under the same conditions on the
    content; the prompts under other identifiers stay as they were. *)
Theorem getPromptById_updatePrompt (prompt : Prompt) (i : string) (w : World) :
  id prompt = Some i -> i <> "" ->
  content prompt <> "" -> startsWith (content prompt) "U2F" = false ->
  exists updated w1,
    updatePrompt prompt w = (Ok updated, w1) /\
    getPromptById i true w1 = (Ok (Some prompt), w1) /\
    forall j, j <> i -> db_prompts w1 !! j = db_prompts w !! j.
Proof.
  intros Hid Hi Hne Hplain.
  destruct (generateLocalEncryptionKey_total w) as (k & w0 & Hk & Hkne & Hs).
  assert (Ha : active_key k w0) by (split; assumption).
  destruct (encryptPrompt_plain prompt w0 k Ha Hne Hplain) as (encrypted & He & Hback).
  rewrite <- (encryptPrompt_from_key prompt w w0 k Hk) in He.
  destruct (encryptPrompt_frame _ _ _ _ He) as (Hp & _).
  assert (Hrun : updatePrompt prompt w =
    (Ok (with_id encrypted i),
     set_db_prompts (insert i (with_id encrypted i)) (set_drawn (drawn w0 + 8) w0))).
  { unfold updatePrompt, updatePrompt_payload, bind. rewrite Hid. simpl.
    apply falsy_false in Hi. rewrite Hi, He. reflexivity. }
  eexists _, _. split; [exact Hrun|]. split.
  - unfold getPromptById, bind, dbOperations.getById. simpl.
    rewrite lookup_insert_eq.
    match goal with |- context [decryptPrompt _ ?w'] =>
      destruct (Hback w' Ha) as [_ Hback'] end.
    rewrite Hback'. destruct prompt. simpl in Hid. subst. reflexivity.
  - intros j Hj. simpl. simpl in Hp. rewrite Hp.
    apply lookup_insert_ne. congruence.
Qed.

(** X13. The copy reads back with the text of the original.  When the
    stored content of the original draws no salt, and the text
    [decryptPrompt] makes of it is not empty and does not start with the
    marker [U2F], then after [copyPrompt], [getPromptById] with decryption
    returns that text for the copy, and still returns the original as
    before. *)
Theorem getPromptById_copyPrompt (promptId : string) (original decrypted : Prompt)
    (w w1 : World) :
  db_prompts w !! promptId = Some original ->
  no_salt_drawn (content original) = true ->
  decryptPrompt original w = (Ok decrypted, w1) ->
  content decrypted <> "" -> startsWith (content decrypted) "U2F" = false ->
  exists copy i w' r,
    copyPrompt promptId w = (Ok copy, w') /\
    id copy = Some i /\ i <> promptId /\
    getPromptById i true w' = (Ok (Some r), w') /\
    content r = content decrypted /\
    getPromptById promptId true w' = (Ok (Some decrypted), w').
Proof.
  intros Hget Hfixed Hd Hne Hplain.
  destruct (decryptPrompt_run original w)
    as (k & w0 & d' & w1' & Hk & Ha & Hd' & Hdrew & _).
  rewrite Hd in Hd'. inversion Hd'. subst d' w1'.
  pose proof (active_key_drew _ _ _ Ha Hdrew) as Ha1.
  destruct (decryptPrompt_frame _ _ _ _ Hd) as (Hp1 & _).
  set (payload := drop_publicChangedAt
         (newPromptData decrypted (wallclock w1 (clock_reads w1))
            (wallclock w1 (S (clock_reads w1))))).
  set (w2 := set_clock_reads (S (S (clock_reads w1))) w1).
  assert (Hpay : copyPrompt_payload promptId w = (Ok payload, w2)).
  { unfold copyPrompt_payload, getPromptById, bind, dbOperations.getById. simpl.
    rewrite Hget, Hd. reflexivity. }
  assert (Ha2 : active_key k w2) by exact Ha1.
  destruct (encryptPrompt_plain payload w2 k Ha2 Hne Hplain)
    as (encrypted & He & Hback).
  assert (Hfree : fresh (dom (db_prompts w2)) <> promptId).
  { intros E. pose proof (fresh_key_free (db_prompts w2)) as Hnone.
    rewrite E in Hnone. simpl in Hnone. rewrite Hp1, Hget in Hnone.
    discriminate Hnone. }
  eexists _, _, _, _. split.
  { unfold copyPrompt, bind. rewrite Hpay. apply addPrompt_unfold, He. }
  split; [reflexivity|]. split; [exact Hfree|].
  match goal with |- context [getPromptById _ true ?w'] =>
    assert (Ha' : active_key k w') by exact Ha2 end.
  split; [|split].
  - unfold getPromptById, bind, dbOperations.getById. simpl.
    rewrite lookup_insert_eq.
    match goal with |- context [decryptPrompt _ ?w'] =>
      destruct (Hback w' Ha') as [_ Hid] end.
    rewrite Hid. reflexivity.
  - reflexivity.
  - unfold getPromptById, bind, dbOperations.getById. simpl.
    rewrite lookup_insert_ne by exact Hfree.
    rewrite Hp1, Hget.
    match goal with |- context [decryptPrompt _ ?w'] =>
      destruct (decryptPrompt_no_salt original w0 w' k Hfixed Ha Ha') as (r & Hr0 & Hr')
    end.
    rewrite (decryptPrompt_from_key original w w0 k Hk), Hr0 in Hd.
    inversion Hd. subst r. rewrite Hr'. reflexivity.
Qed.

End StoreRoundTrip.

(** ** More on the user prompt selections *)

(** What [getUserPromptSelections] lists. *)
Lemma getUserPromptSelections_In (userId : option string) (promptId : string) (w : World) :
  exists listed,
    getUserPromptSelections userId w = (Ok listed, w) /\
    (promptId ∈ listed <->
     exists i s, db_selections w !! i = Some s /\ sel_promptId s = promptId /\
       (truthy userId = None \/ truthy userId = Some (sel_userId s))).
Proof.
  unfold getUserPromptSelections, bind, dbOperations.getAll. simpl.
  eexists. split; [reflexivity|].
  rewrite list_elem_of_In, in_map_iff.
  destruct (truthy userId) as [u|]; split.
  - intros (s & Hp & Hin). apply list_elem_of_In, list_elem_of_filter in Hin as [Hu Hin].
    apply list_elem_of_In, In_getAll in Hin as [i Hi].
    exists i, s. split; [exact Hi|]. split; [exact Hp|]. right. congruence.
  - intros (i & s & Hi & Hp & [Hu|Hu]); [discriminate Hu|].
    exists s. split; [exact Hp|].
    apply list_elem_of_In, list_elem_of_filter. split; [congruence|].
    apply list_elem_of_In, In_getAll. eauto.
  - intros (s & Hp & Hin). apply In_getAll in Hin as [i Hi].
    exists i, s. auto.
  - intros (i & s & Hi & Hp & _). exists s. split; [exact Hp|].
    apply In_getAll. eauto.
Qed.

(** X14. [isPromptSelectedByUser] changes nothing, and answers [true]
    exactly when a stored selection has the prompt and the user, the user
    being [local_user] when none is given.  When the empty string is
    given as user, the selections of every user count. *)
Theorem isPromptSelectedByUser_spec (promptId : string) (userId : option string)
    (w : World) :
  exists b,
    isPromptSelectedByUser promptId userId w = (Ok b, w) /\
    (b = true <->
     exists i s, db_selections w !! i = Some s /\ sel_promptId s = promptId /\
       (or_local_user userId = "" \/ sel_userId s = or_local_user userId)).
Proof.
  unfold isPromptSelectedByUser, bind.
  destruct (getUserPromptSelections_In (Some (or_local_user userId)) promptId w)
    as (listed & Hrun & Hin).
  rewrite Hrun. eexists. split; [reflexivity|].
  rewrite bool_decide_eq_true, Hin.
  split; intros (i & s & Hi & Hp & Hu); exists i, s; (split; [exact Hi|]);
    (split; [exact Hp|]).
  - destruct Hu as [Hu|Hu].
    + left. apply truthy_None in Hu as [Hu|Hu]; congruence.
    + right. apply truthy_Some in Hu as [Hu _]. congruence.
  - destruct (or_local_user userId) as [|a u] eqn:E.
    + left. reflexivity.
    + right. destruct Hu as [Hu|Hu]; [discriminate Hu|]. rewrite Hu. reflexivity.
Qed.

(** After [addUserPromptSelection] a selection with the pair is stored. *)
Lemma addUserPromptSelection_stored (promptId : string) (userId : option string)
    (w : World) :
  exists s w' i,
    addUserPromptSelection promptId userId w = (Ok s, w') /\
    db_selections w' !! i = Some s /\
    sel_promptId s = promptId /\ sel_userId s = or_local_user userId.
Proof.
  destruct (selected_or_not promptId userId w) as [Hex|Hnot].
  - destruct (addUserPromptSelection_existing promptId userId w Hex)
      as (existing & Hrun & [i Hi] & Hp & Hu).
    exists existing, (set_clock_reads (S (clock_reads w)) w), i. auto.
  - rewrite (addUserPromptSelection_new promptId userId w Hnot).
    eexists _, _, _. split; [reflexivity|]. simpl.
    split; [apply lookup_insert_eq|]. auto.
Qed.

(** X15. A prompt that was selected is selected: after
    [addUserPromptSelection], [isPromptSelectedByUser] answers [true] for
    the same prompt and user, and [getUserPromptSelections] lists the
    prompt for that user. *)
Theorem isPromptSelectedByUser_addUserPromptSelection
    (promptId : string) (userId : option string) (w : World) :
  exists s w',
    addUserPromptSelection promptId userId w = (Ok s, w') /\
    isPromptSelectedByUser promptId userId w' = (Ok true, w') /\
    exists listed,
      getUserPromptSelections (Some (or_local_user userId)) w' = (Ok listed, w') /\
      promptId ∈ listed.
Proof.
  destruct (addUserPromptSelection_stored promptId userId w)
    as (s & w' & i & Hrun & Hi & Hp & Hu).
  exists s, w'. split; [exact Hrun|].
  destruct (getUserPromptSelections_In (Some (or_local_user userId)) promptId w')
    as (listed & Hlist & Hin).
  assert (Hlisted : promptId ∈ listed).
  { apply Hin. exists i, s. split; [exact Hi|]. split; [exact Hp|].
    simpl. rewrite Hu. destruct (falsy (or_local_user userId)); auto. }
  split.
  - unfold isPromptSelectedByUser, bind. rewrite Hlist.
    rewrite (bool_decide_eq_true_2 _ Hlisted). reflexivity.
  - exists listed. auto.
Qed.

(** [addUserPromptSelection] returns what [find] finds. *)
Lemma addUserPromptSelection_find (promptId : string) (userId : option string)
    (w : World) (existing : UserPromptSelection) :
  find (selects promptId (or_local_user userId))
    (map snd (map_to_list (db_selections w))) = Some existing ->
  addUserPromptSelection promptId userId w =
    (Ok existing, set_clock_reads (S (clock_reads w)) w).
Proof.
  intros Hfind.
  assert (Hex : existsb (selects promptId (or_local_user userId))
                  (map snd (map_to_list (db_selections w))) = true).
  { apply existsb_exists. exists existing. apply find_some in Hfind. exact Hfind. }
  unfold addUserPromptSelection, bind, new_Date, dbOperations.getAll. simpl.
  rewrite Hex, Hfind. reflexivity.
Qed.

(** X16. Selecting twice is selecting once: a second
    [addUserPromptSelection] for the same prompt and user returns the
    selection the first returned and leaves the store as the first left
    it. *)
Theorem addUserPromptSelection_twice (promptId : string) (userId : option string)
    (w : World) :
  exists s w1 w2,
    addUserPromptSelection promptId userId w = (Ok s, w1) /\
    addUserPromptSelection promptId userId w1 = (Ok s, w2) /\
    db_selections w2 = db_selections w1.
Proof.
  destruct (selected_or_not promptId userId w) as [Hex|Hnot].
  - apply existsb_selects in Hex.
    destruct (find_of_existsb _ _ Hex) as [existing Hfind].
    exists existing, (set_clock_reads (S (clock_reads w)) w).
    eexists. split; [apply addUserPromptSelection_find, Hfind|].
    split; [apply addUserPromptSelection_find, Hfind | reflexivity].
  - rewrite (addUserPromptSelection_new promptId userId w Hnot).
    set (i := fresh (dom (db_selections w))).
    set (added := mkSelection (Some i) (or_local_user userId) promptId
                    (wallclock w (clock_reads w))).
    set (w1 := set_db_selections (insert i added)
                 (set_clock_reads (S (clock_reads w)) w)).
    assert (Hex1 : exists j s, db_selections w1 !! j = Some s /\
      sel_promptId s = promptId /\ sel_userId s = or_local_user userId).
    { exists i, added. split; [apply lookup_insert_eq|]. auto. }
    destruct (addUserPromptSelection_existing promptId userId w1 Hex1)
      as (existing & Hrun & [j Hj] & Hp & Hu).
    assert (existing = added) as ->.
    { destruct (decide (j = i)) as [->|Hji]; simpl in Hj.
      - rewrite lookup_insert_eq in Hj. congruence.
      - rewrite lookup_insert_ne in Hj by congruence.
        exfalso. apply Hnot. eauto. }
    exists added, w1. eexists. split; [reflexivity|].
    split; [exact Hrun | reflexivity].
Qed.

(** In a store without duplicates [find] finds the one selection. *)
Lemma find_selects_unique (promptId userId : string) (w : World)
    (i : string) (s : UserPromptSelection) :
  selections_unique (db_selections w) ->
  db_selections w !! i = Some s ->
  sel_promptId s = promptId -> sel_userId s = userId ->
  find (selects promptId userId) (map snd (map_to_list (db_selections w))) = Some s.
Proof.
  intros Huniq Hi Hp Hu.
  destruct (find_of_existsb (selects promptId userId)
              (map snd (map_to_list (db_selections w)))) as [t Ht].
  { apply existsb_selects. eauto. }
  rewrite Ht. apply find_some in Ht as [Hin Hsel].
  apply In_getAll in Hin as [j Hj]. apply selects_true in Hsel as [Hp' Hu'].
  assert (j = i) by (eapply Huniq; eauto; congruence). subst j. congruence.
Qed.

(** X17. [removeUserPromptSelection] removes the selection of the pair
    when the selection carries the identifier it is filed under: in a
    store without duplicates no selection with the pair is left, and the
    other selections stay.  A selection that carries no identifier, or
    the empty string, is not removed: the store stays as it is. *)
Theorem removeUserPromptSelection_removes (promptId : string) (userId : option string)
    (w : World) (i : string) (s : UserPromptSelection) :
  selections_unique (db_selections w) ->
  db_selections w !! i = Some s ->
  sel_promptId s = promptId -> sel_userId s = or_local_user userId ->
  (sel_id s = Some i -> i <> "" ->
   removeUserPromptSelection promptId userId w =
     (Ok tt, set_db_selections (delete i) w) /\
   (forall j t, db_selections (set_db_selections (delete i) w) !! j = Some t ->
      ~ (sel_promptId t = promptId /\ sel_userId t = or_local_user userId)) /\
   (forall j, j <> i ->
      db_selections (set_db_selections (delete i) w) !! j = db_selections w !! j)) /\
  (truthy (sel_id s) = None ->
   removeUserPromptSelection promptId userId w = (Ok tt, w)).
Proof.
  intros Huniq Hi Hp Hu.
  pose proof (find_selects_unique promptId (or_local_user userId) w i s
                Huniq Hi Hp Hu) as Hfind.
  split.
  - intros Hid Hne. split; [|split].
    + unfold removeUserPromptSelection, bind, dbOperations.getAll. simpl.
      rewrite Hfind, Hid. simpl. apply falsy_false in Hne. rewrite Hne.
      reflexivity.
    + intros j t Hj [Hpt Hut]. simpl in Hj.
      apply lookup_delete_Some in Hj as [Hji Hj].
      apply Hji. symmetry. eapply Huniq; eauto; congruence.
    + intros j Hj. simpl. apply lookup_delete_ne. congruence.
  - intros Hnoid.
    unfold removeUserPromptSelection, bind, dbOperations.getAll. simpl.
    rewrite Hfind, Hnoid. reflexivity.
Qed.

(** ** The list of the prompt page *)

Lemma newest_first_filter (P : Prompt -> Prop) `{!forall p, Decision (P p)}
    (l : list Prompt) :
  newest_first l -> newest_first (filter P l).
Proof.
  unfold newest_first. induction l as [|a l IH]; intros Hs; [constructor|].
  apply StronglySorted_inv in Hs as [Hl Ha]. rewrite filter_cons.
  destruct (decide (P a)); [|exact (IH Hl)].
  constructor; [exact (IH Hl)|].
  rewrite Forall_forall in Ha |- *. intros x Hx.
  apply list_elem_of_filter in Hx as [_ Hx]. exact (Ha x Hx).
Qed.

(** X18. The list of the page stays newest first, when the prompt and the
    records of the list carry valid dates of their last change.  After a
    create or a copy the list is the old list and the new prompt, newest
    first.  After a save it is newest first, as long as before, and each
    of its records is the saved one or a record of the old list with
    another identifier.  After a delete exactly the records with the
    identifier of the deleted prompt are gone, and a list that was newest
    first still is. *)
Theorem setPrompts_newest_first (prompt : Prompt) (prev : list Prompt) :
  is_Some (updated prompt) -> valid_dates prev ->
  (newest_first (setPrompts_added prompt prev) /\
   setPrompts_added prompt prev ≡ₚ prompt :: prev) /\
  (newest_first (setPrompts_saved prompt prev) /\
   length (setPrompts_saved prompt prev) = length prev /\
   forall q, q ∈ setPrompts_saved prompt prev ->
     q = prompt \/ (q ∈ prev /\ id q <> id prompt)) /\
  ((newest_first prev -> newest_first (setPrompts_deleted prompt prev)) /\
   forall q, q ∈ setPrompts_deleted prompt prev <-> q ∈ prev /\ id q <> id prompt).
Proof.
  intros Hprompt Hprev. split; [|split].
  - split; [|apply Array_sort_Permutation].
    apply Array_sort_newest_first. constructor; assumption.
  - unfold setPrompts_saved. split; [|split].
    + apply Array_sort_newest_first. unfold valid_dates in *.
      rewrite Forall_forall in Hprev |- *. intros q Hq.
      apply list_elem_of_In, in_map_iff in Hq as (p & Hp & Hin).
      destruct (decide (id p = id prompt)); subst q;
        [exact Hprompt | apply Hprev, list_elem_of_In, Hin].
    + rewrite Array_sort_Permutation. apply length_map.
    + intros q Hq. rewrite Array_sort_Permutation in Hq.
      apply list_elem_of_In, in_map_iff in Hq as (p & Hp & Hin).
      destruct (decide (id p = id prompt)) as [E|E].
      * left. congruence.
      * right. subst q. split; [apply list_elem_of_In, Hin | exact E].
  - unfold setPrompts_deleted. split.
    + apply newest_first_filter.
    + intros q. rewrite list_elem_of_filter. tauto.
Qed.

(** ** The tape colour *)

Lemma isValidPromptType_own (type' : string) :
  isValidPromptType type' = true <-> is_Some (own_property promptTypeMap type').
Proof.
  unfold isValidPromptType, promptTypeMap. cbn [own_property existsb map fst].
  rewrite !(String.eqb_sym type').
  repeat (destruct (String.eqb _ type');
          [split; [intros _; eexists; reflexivity | reflexivity]|]).
  simpl. split; [intros H; discriminate H | intros [x Hx]; discriminate Hx].
Qed.

(** X19. [getTypeColor] of the page does not depend on the type: for each
    of the ten prompt types, and for every name that is not a property of
    the table or of [Object.prototype], it returns [rgba(white], the text
    colour class with its prefix replaced and no closing part, since the
    class holds no bracket.  For a name found on [Object.prototype] it
    throws. *)
Theorem getTypeColor_constant (inherited : string -> bool) (type' : string) :
  (isValidPromptType type' = true ->
   getTypeColor inherited type' = Ok "rgba(white") /\
  (isValidPromptType type' = false -> inherited type' = false ->
   getTypeColor inherited type' = Ok "rgba(white") /\
  (isValidPromptType type' = false -> inherited type' = true ->
   exists e, getTypeColor inherited type' = Throw e).
Proof.
  split; [|split].
  - unfold isValidPromptType, getTypeColor, promptTypeMap.
    cbn [own_property existsb map fst]. rewrite !(String.eqb_sym type').
    repeat (destruct (String.eqb _ type'); [intros _; reflexivity|]).
    simpl. intros H. discriminate H.
  - intros Hv Hi. unfold getTypeColor.
    destruct (own_property promptTypeMap type') as [info|] eqn:Ho.
    + assert (isValidPromptType type' = true)
        by (apply isValidPromptType_own; eauto). congruence.
    + rewrite Hi. reflexivity.
  - intros Hv Hi. unfold getTypeColor.
    destruct (own_property promptTypeMap type') as [info|] eqn:Ho.
    + assert (isValidPromptType type' = true)
        by (apply isValidPromptType_own; eauto). congruence.
    + rewrite Hi. eexists. reflexivity.
Qed.

(** ** The pages of the selection modal *)

(** Calls of [handleScroll] made with the same state add up. *)
Lemma handleScroll_calls (mounted hasMore isLoading nearBottom : bool)
    (calls page : nat) :
  Nat.iter calls (handleScroll mounted hasMore isLoading nearBottom) page =
    if mounted && hasMore && negb isLoading && nearBottom
    then page + calls else page.
Proof.
  induction calls as [|n IH]; simpl.
  - destruct (_ && _); [lia | reflexivity].
  - rewrite IH. unfold handleScroll.
    destruct mounted, hasMore, isLoading, nearBottom; simpl; lia.
Qed.

Section ModalPages.
Variable toLowerCase : string -> string.
Variable prompts : list Prompt.
Variable searchTerm : string.

Local Abbreviation filtered := (modal_filtered toLowerCase prompts searchTerm).
Local Abbreviation visible := (modal_filteredPrompts toLowerCase prompts searchTerm).
Local Abbreviation hasMore := (modal_hasMore toLowerCase prompts searchTerm).

Lemma modal_hasMore_false (page : nat) :
  hasMore page = false <-> length filtered <= page * PAGE_SIZE.
Proof.
  unfold modal_hasMore. rewrite Nat.ltb_ge. reflexivity.
Qed.

Lemma modal_filtered_subset (q : Prompt) : q ∈ filtered -> q ∈ prompts.
Proof.
  unfold modal_filtered. destruct (falsy searchTerm); [auto|].
  intros Hq. apply list_elem_of_In, filter_In in Hq as [Hq _].
  apply list_elem_of_In, Hq.
Qed.

(** X20. The modal shows the matches page by page.  On page [page] it
    shows the first [page * 20] matches, all of them when there are
    fewer, and [hasMore] is [false] exactly when every match is shown.
    With an empty search term every prompt is a match, and every match is
    one of the prompts.  What an earlier page shows is the beginning of
    what a later page shows.  A call of [handleScroll] moves one page on
    when the container is mounted, the callback was made with [hasMore]
    set and nothing loading, and the scroll position is near the bottom,
    and leaves the page otherwise; calls made with the same state add up,
    one page for each. *)
Theorem modal_pages (page : nat) :
  visible page = take (page * PAGE_SIZE) filtered /\
  length (visible page) = Nat.min (page * PAGE_SIZE) (length filtered) /\
  (hasMore page = false <-> visible page = filtered) /\
  (searchTerm = "" -> filtered = prompts) /\
  (forall q, q ∈ filtered -> q ∈ prompts) /\
  (forall more, visible page = take (page * PAGE_SIZE) (visible (page + more))) /\
  (forall mounted hasMore' isLoading nearBottom calls,
     Nat.iter calls (handleScroll mounted hasMore' isLoading nearBottom) page =
       if mounted && hasMore' && negb isLoading && nearBottom
       then page + calls else page).
Proof.
  assert (Hshown : forall p, hasMore p = false <-> visible p = filtered).
  { intros p. rewrite modal_hasMore_false.
    unfold modal_filteredPrompts. split.
    - intros Hlen. apply take_ge. exact Hlen.
    - intros E. apply (f_equal length) in E. rewrite length_take in E. lia. }
  split; [reflexivity|]. split; [apply length_take|]. split; [apply Hshown|].
  split; [|split; [|split]].
  - intros ->. reflexivity.
  - apply modal_filtered_subset.
  - intros more. unfold modal_filteredPrompts. rewrite take_take.
    f_equal. unfold PAGE_SIZE. lia.
  - intros. apply handleScroll_calls.
Qed.

End ModalPages.

(** ** The further properties on the samples *)

Module MoreScenarios.
Import Reference ReferenceFacts Samples.

(** The prompts of one type in the library, newest first. *)
Lemma getPromptsByType_listing_witness :
  exists listing,
    getPromptsByType (C := cryptojs) "ai_writing" false library_world =
      (Ok listing, library_world) /\
    newest_first listing /\
    map id listing = [Some "1"; Some "2"].
Proof.
  destruct (@getPromptsByType_listing cryptojs "ai_writing" library_world
              (map snd (map_to_list (db_prompts library_world))) eq_refl)
    as [(listing & Hrun & _ & Hsorted & _) _].
  { unfold valid_dates. apply (bool_decide_unpack _). vm_compute. exact I. }
  exists listing. split; [exact Hrun|]. split; [exact Hsorted|].
  assert (E : returns (getPromptsByType (C := cryptojs) "ai_writing" false)
                library_world = Some listing)
    by (unfold returns; rewrite Hrun; reflexivity).
  vm_compute in E. inversion E. reflexivity.
Defined.


(** A draft through [encryptPrompt] and back. *)
Lemma decryptPrompt_encryptPrompt_witness :
  exists encrypted w1,
    encryptPrompt (C := cryptojs) (draft "hello") empty_world = (Ok encrypted, w1) /\
    decryptPrompt (C := cryptojs) encrypted w1 = (Ok (draft "hello"), w1).
Proof.
  apply (@decryptPrompt_encryptPrompt cryptojs laws (draft "hello") empty_world);
    [discriminate | reflexivity].
Defined.

Lemma encryptPrompt_encrypts_witness :
  exists encrypted w1,
    encryptPrompt (C := cryptojs) (draft "hello") empty_world = (Ok encrypted, w1) /\
    (forall w', isEncrypted (C := cryptojs) (content encrypted) sample_key w' =
                  (Ok true, w')) /\
    encrypted = with_content (draft "hello") (content encrypted).
Proof.
  apply (@encryptPrompt_encrypts cryptojs laws (draft "hello") empty_world
           (world_after generateLocalEncryptionKey empty_world) sample_key);
    [reflexivity | discriminate | reflexivity | reflexivity | reflexivity].
Defined.

(** The first key of the empty world. *)
Lemma generateLocalEncryptionKey_makes_hex_key_witness :
  exists k w1,
    generateLocalEncryptionKey empty_world = (Ok k, w1) /\
    String.length k = 64 /\
    (forall a, In a (list_ascii_of_string k) ->
               In a (list_ascii_of_string "0123456789abcdef")) /\
    localStorage w1 !! "zhuguang_local_encryption_key" = Some k /\
    drawn w1 = drawn empty_world + 32.
Proof.
  apply (generateLocalEncryptionKey_makes_hex_key empty_world). left. reflexivity.
Defined.

(** A draft added and read back. *)
Lemma getPromptById_addPrompt_witness :
  exists added i w1,
    addPrompt (C := cryptojs) (draft "hello") empty_world = (Ok added, w1) /\
    id added = Some i /\
    getPromptById (C := cryptojs) i false w1 = (Ok (Some added), w1) /\
    getPromptById (C := cryptojs) i true w1 =
      (Ok (Some (with_id (draft "hello") i)), w1).
Proof.
  apply (@getPromptById_addPrompt cryptojs laws (draft "hello") empty_world);
    [discriminate | reflexivity].
Defined.

(** The stored draft updated with a new text and read back. *)
Lemma getPromptById_updatePrompt_witness :
  exists updated w1,
    updatePrompt (C := cryptojs) (with_id (draft "changed") "0") one_prompt_world =
      (Ok updated, w1) /\
    getPromptById (C := cryptojs) "0" true w1 =
      (Ok (Some (with_id (draft "changed") "0")), w1) /\
    forall j, j <> "0" -> db_prompts w1 !! j = db_prompts one_prompt_world !! j.
Proof.
  apply (@getPromptById_updatePrompt cryptojs laws (with_id (draft "changed") "0")
           "0" one_prompt_world);
    [reflexivity | discriminate | discriminate | reflexivity].
Defined.

(** The copy of the stored draft. *)
Lemma copyPrompt_copy_witness :
  exists copy w' i,
    copyPrompt (C := cryptojs) "0" one_prompt_world = (Ok copy, w') /\
    id copy = Some i /\ i <> "0" /\
    db_prompts w' !! "0" = Some stored_draft /\
    title copy = "Opening (复制)" /\
    isPublic copy = Some false.
Proof.
  destruct (@copyPrompt_copy cryptojs "0" stored_draft one_prompt_world eq_refl)
    as (copy & w' & i & Hrun & Hid & Hne & _ & Horig & Htitle & Hpublic & _).
  exists copy, w', i. repeat split; assumption.
Defined.

Lemma getPromptById_copyPrompt_witness :
  exists copy i w' r,
    copyPrompt (C := cryptojs) "0" one_prompt_world = (Ok copy, w') /\
    id copy = Some i /\
    getPromptById (C := cryptojs) i true w' = (Ok (Some r), w') /\
    content r = "hello" /\
    getPromptById (C := cryptojs) "0" true w' =
      (Ok (Some (with_id (draft "hello") "0")), w').
Proof.
  destruct (@getPromptById_copyPrompt cryptojs laws "0" stored_draft
              (with_id (draft "hello") "0") one_prompt_world one_prompt_world)
    as (copy & i & w' & r & Hrun & Hid & _ & Hread & Hcontent & Horig);
    [reflexivity | reflexivity | reflexivity | discriminate | reflexivity |].
  exists copy, i, w', r. auto.
Defined.

Lemma one_selection_world_unique :
  selections_unique (db_selections one_selection_world).
Proof.
  change (db_selections one_selection_world)
    with (<["0" := stored_selection]> (∅ : gmap string UserPromptSelection)).
  apply selections_unique_insert.
  - intros i j s t Hi. rewrite lookup_empty in Hi. discriminate Hi.
  - apply lookup_empty.
  - intros j t Hj. rewrite lookup_empty in Hj. discriminate Hj.
Qed.

(** The one selection removed. *)
Lemma removeUserPromptSelection_removes_witness :
  removeUserPromptSelection "p1" None one_selection_world =
    (Ok tt, set_db_selections (delete "0") one_selection_world).
Proof.
  destruct (removeUserPromptSelection_removes "p1" None one_selection_world
              "0" stored_selection one_selection_world_unique)
    as [Hremove _]; [reflexivity | reflexivity | reflexivity |].
  destruct Hremove as (Hrun & _); [reflexivity | discriminate |].
  exact Hrun.
Defined.

(** A new prompt put into a list of two. *)
Lemma setPrompts_newest_first_witness :
  newest_first
    (setPrompts_added (note "plot" "new" (time 1700000000250))
       [note "plot" "a" (time 1700000000300); note "plot" "b" (time 1700000000200)]) /\
  setPrompts_added (note "plot" "new" (time 1700000000250))
    [note "plot" "a" (time 1700000000300); note "plot" "b" (time 1700000000200)] =
    [note "plot" "a" (time 1700000000300); note "plot" "new" (time 1700000000250);
     note "plot" "b" (time 1700000000200)].
Proof.
  destruct (setPrompts_newest_first (note "plot" "new" (time 1700000000250))
              [note "plot" "a" (time 1700000000300);
               note "plot" "b" (time 1700000000200)])
    as ((Hsorted & _) & _).
  - eexists. reflexivity.
  - repeat constructor; eexists; reflexivity.
  - split; [exact Hsorted | reflexivity].
Defined.

(** The listing with decryption, on the library. *)
Example getPromptsByType_decrypted_library :
  returns (getPromptsByType (C := cryptojs) "ai_writing" true) library_world =
    Some [with_id (note "ai_writing" "second" (time 1700000000300)) "1";
          with_id (note "ai_writing" "third" (time 1700000000200)) "2"].
Proof. reflexivity. Qed.

(** A time outside the range of [Date] has no time value, and the
    comparator of the listings answers [NaN] on it. *)
Example by_updatedAt_desc_out_of_range :
  Date_getTime (time 8640000000000001) = None /\
  by_updatedAt_desc (note "plot" "a" (time 8640000000000001))
    (note "plot" "b" (time 1700000000200)) = None /\
  by_updatedAt_desc (note "plot" "a" Invalid_Date)
    (note "plot" "b" (time 1700000000200)) = None.
Proof. repeat split. Qed.

(** The tape colour of a plot prompt, and of a name every object has. *)
Example getTypeColor_samples :
  getTypeColor inherited "plot" = Ok "rgba(white" /\
  getTypeColor inherited "no such type" = Ok "rgba(white" /\
  is_Ok (getTypeColor inherited "toString") = false.
Proof. repeat split. Qed.

End MoreScenarios.
